(** * shareddict-vnr-to-yagt: the Term Mapper [VnrToYagtFormat] of [src/index.js]

    A shallow embedding of the conversion function and of the fragment of
    JavaScript it relies on: strings as sequences of UTF-16 code units,
    the values the function stores in its records, ordinary objects with
    their own-property order, the [isNaN] test on strings, and abrupt
    completion by [TypeError]; then of the option handling of [main]
    ([parseArgs], [checkOptions]) with what it prints and how it exits. *)

From Stdlib Require Import List NArith Ascii String Bool Arith Lia.
Import ListNotations.
Open Scope list_scope.

(* ================================================================== *)
(** ** Strings *)

(** A JavaScript string is a sequence of UTF-16 code units; [length] counts
    code units, which is what [pattern.length] returns. *)
Definition codeunit := N.
Definition jsstring := list codeunit.

(** Literals of the source text, all ASCII. *)
Fixpoint js (s : string) : jsstring :=
  match s with
  | EmptyString => []
  | String c r => N_of_ascii c :: js r
  end.

Fixpoint str_eqb (a b : jsstring) : bool :=
  match a, b with
  | [], [] => true
  | x :: a', y :: b' => N.eqb x y && str_eqb a' b'
  | _, _ => false
  end.

Definition mem (k : jsstring) (l : list jsstring) : bool :=
  existsb (str_eqb k) l.

Fixpoint is_prefix (p s : jsstring) : bool :=
  match p, s with
  | [], _ => true
  | x :: p', y :: s' => N.eqb x y && is_prefix p' s'
  | _ :: _, [] => false
  end.

(** [String.prototype.includes]: [p] occurs in [s] as a substring. *)
Fixpoint is_substring (p s : jsstring) : bool :=
  is_prefix p s ||
  match s with
  | [] => false
  | _ :: s' => is_substring p s'
  end.

(* ================================================================== *)
(** ** The [isNaN] test on a string

    [isNaN(s)] is [true] exactly when [ToNumber(s)] is [NaN], that is when
    [s], once its white space is trimmed, is neither empty nor a
    [StrNumericLiteral] of ECMA-262 (every literal of that grammar denotes
    a number, possibly an infinity). *)

Definition in_range (lo hi c : N) : bool := N.leb lo c && N.leb c hi.

Definition is_digit (c : codeunit) : bool := in_range 48 57 c.

(** [WhiteSpace] and [LineTerminator] code points. *)
Definition is_ws (c : codeunit) : bool :=
  in_range 9 13 c || N.eqb c 32 || N.eqb c 160 || N.eqb c 5760 ||
  in_range 8192 8202 c || N.eqb c 8232 || N.eqb c 8233 || N.eqb c 8239 ||
  N.eqb c 8287 || N.eqb c 12288 || N.eqb c 65279.

Fixpoint drop_while (p : codeunit -> bool) (s : jsstring) : jsstring :=
  match s with
  | [] => []
  | c :: r => if p c then drop_while p r else s
  end.

Definition trim (s : jsstring) : jsstring :=
  rev (drop_while is_ws (rev (drop_while is_ws s))).

(** One or more decimal digits; the result is what follows them. *)
Definition some_digits (s : jsstring) : option jsstring :=
  match s with
  | c :: r => if is_digit c then Some (drop_while is_digit r) else None
  | [] => None
  end.

Definition is_sign (c : codeunit) : bool := N.eqb c 43 || N.eqb c 45.

(** [ExponentPart] (optional), up to the end of the string. *)
Definition exponent_opt (s : jsstring) : bool :=
  match s with
  | [] => true
  | c :: r =>
      if N.eqb c 101 || N.eqb c 69 then
        let r' := match r with
                  | x :: r2 => if is_sign x then r2 else r
                  | [] => r
                  end in
        match some_digits r' with
        | Some [] => true
        | _ => false
        end
      else false
  end.

(** [StrUnsignedDecimalLiteral]. *)
Definition unsigned_decimal (s : jsstring) : bool :=
  if str_eqb s (js "Infinity") then true
  else
    match some_digits s with
    | Some [] => true
    | Some (c :: r) =>
        if N.eqb c 46 then exponent_opt (drop_while is_digit r)
        else exponent_opt (c :: r)
    | None =>
        match s with
        | c :: r =>
            if N.eqb c 46 then
              match some_digits r with
              | Some rest => exponent_opt rest
              | None => false
              end
            else false
        | [] => false
        end
    end.

Definition is_hex (c : codeunit) : bool :=
  is_digit c || in_range 97 102 c || in_range 65 70 c.

Definition all_of (p : codeunit -> bool) (s : jsstring) : bool :=
  match s with
  | [] => false
  | _ => forallb p s
  end.

(** [NonDecimalIntegerLiteral]: [0b], [0o] and [0x] forms, no sign. *)
Definition non_decimal (s : jsstring) : bool :=
  match s with
  | 48 :: x :: r =>
      if N.eqb x 98 || N.eqb x 66 then all_of (in_range 48 49) r
      else if N.eqb x 111 || N.eqb x 79 then all_of (in_range 48 55) r
      else if N.eqb x 120 || N.eqb x 88 then all_of is_hex r
      else false
  | _ => false
  end%N.

Definition str_numeric_literal (s : jsstring) : bool :=
  non_decimal s ||
  match s with
  | c :: r => if is_sign c then unsigned_decimal r else unsigned_decimal s
  | [] => false
  end.

Definition isNaN (s : jsstring) : bool :=
  match trim s with
  | [] => false
  | b => negb (str_numeric_literal b)
  end.

(* ================================================================== *)
(** ** Values *)

#[local] Set Warnings "-register-all".

Inductive value : Type :=
| VUndefined
| VBool (b : bool)
| VString (s : jsstring)
| VArray (elems : list value).

(** A field of a parsed record: absent ([undefined]) or a string. *)
Definition of_field (f : option jsstring) : value :=
  match f with
  | None => VUndefined
  | Some s => VString s
  end.

(** [ToBoolean]. *)
Definition truthy (v : value) : bool :=
  match v with
  | VUndefined => false
  | VBool b => b
  | VString [] => false
  | VString (_ :: _) => true
  | VArray _ => true
  end.

(** The unary [!]. *)
Definition js_not (v : value) : value := VBool (negb (truthy v)).

(** [===]; also [SameValueZero] on these values.  Two arrays are equal
    only when they are the same object; the program never compares an
    array, so that case is [false] here. *)
Definition strict_equal (a b : value) : bool :=
  match a, b with
  | VUndefined, VUndefined => true
  | VBool x, VBool y => Bool.eqb x y
  | VString x, VString y => str_eqb x y
  | _, _ => false
  end.

(** [ToString] of a record field: the string itself, or the name of
    [undefined]. *)
Definition to_string (f : option jsstring) : jsstring :=
  match f with
  | None => js "undefined"
  | Some s => s
  end.

(** [ToPropertyKey] of a record field used as a computed member name. *)
Definition property_key (f : option jsstring) : jsstring := to_string f.

(* ================================================================== *)
(** ** Ordinary objects

    An object is the list of its own properties in the order
    [OrdinaryOwnPropertyKeys] enumerates them: array-index names first, in
    ascending numeric order, then the other names in the order they were
    created.  [for ... in] and object spread follow that order. *)

Fixpoint digits_value (acc : N) (s : jsstring) : option N :=
  match s with
  | [] => Some acc
  | c :: r =>
      if is_digit c then digits_value (10 * acc + (c - 48)) r else None
  end.

(** The array index a property name denotes, if any: a canonical decimal
    numeral below [2^32 - 1]. *)
Definition array_index (k : jsstring) : option N :=
  match k with
  | [] => None
  | c :: r =>
      if N.eqb c 48 then
        match r with [] => Some 0%N | _ => None end
      else
        match digits_value 0 k with
        | Some n => if N.ltb n 4294967295 then Some n else None
        | None => None
        end
  end.

Section Properties.
Context {V : Type}.

Definition props := list (jsstring * V).

Fixpoint own (o : props) (k : jsstring) : option V :=
  match o with
  | [] => None
  | (k', v) :: r => if str_eqb k' k then Some v else own r k
  end.

Definition has_own (o : props) (k : jsstring) : bool :=
  match own o k with Some _ => true | None => false end.

Fixpoint replace (o : props) (k : jsstring) (v : V) : props :=
  match o with
  | [] => []
  | (k', v') :: r =>
      if str_eqb k' k then (k', v) :: r else (k', v') :: replace r k v
  end.

Fixpoint insert_index (o : props) (i : N) (k : jsstring) (v : V) : props :=
  match o with
  | [] => [(k, v)]
  | (k', v') :: r =>
      match array_index k' with
      | Some j =>
          if N.ltb j i then (k', v') :: insert_index r i k v
          else (k, v) :: o
      | None => (k, v) :: o
      end
  end.

(** Create or update the own data property [k]. *)
Definition put (o : props) (k : jsstring) (v : V) : props :=
  if has_own o k then replace o k v
  else
    match array_index k with
    | Some i => insert_index o i k v
    | None => o ++ [(k, v)]
    end.

(** [delete o[k]]. *)
Definition remove (o : props) (k : jsstring) : props :=
  filter (fun kv => negb (str_eqb (fst kv) k)) o.

Definition keys (o : props) : list jsstring := map fst o.
End Properties.

Arguments props : clear implicits.

Definition object := props value.

(** [o.k] on an object whose prototype chain does not define [k]. *)
Definition get (o : object) (k : jsstring) : value :=
  match own o k with
  | Some v => v
  | None => VUndefined
  end.

(** [o[k] = v] on an object created by [{}]: the name [__proto__] reaches
    the accessor of [Object.prototype], whose setter ignores a value that
    is neither an object nor [null] (the program assigns under a computed
    name only the text of a term, a string); every other name creates or
    updates an own property. *)
Definition set (o : object) (k : jsstring) (v : value) : object :=
  if str_eqb k (js "__proto__") then o else put o k v.

(** The names every [{}] inherits from [Object.prototype]; all of them
    hold a function or an object, hence a truthy value. *)
Definition Object_prototype : list jsstring :=
  map js
    [ "constructor"; "__defineGetter__"; "__defineSetter__";
      "hasOwnProperty"; "__lookupGetter__"; "__lookupSetter__";
      "isPrototypeOf"; "propertyIsEnumerable"; "toString"; "valueOf";
      "__proto__"; "toLocaleString" ]%string.

(* ================================================================== *)
(** ** Completions *)

Inductive exn : Type := TypeError.

(** How an evaluation ends: normally, by a thrown exception, or at the
    point where [tempFormat.terms[pattern]] finds a built-in object
    through the prototype chain.  There the program goes on: it merges the
    term into that built-in (a function, or [Object.prototype] itself for
    the pattern [__proto__]) and continues the loop, and what it does from
    then on depends on the properties of the built-ins, which are not part
    of this model.  [Builtin] marks that point and the run is cut there;
    it is not an outcome of the program.  The theorems about the records
    and about the returned array are stated for inputs in which no
    pattern is such a name ([own_pattern]). *)
Inductive completion (A : Type) : Type :=
| Return (a : A)
| Throw (e : exn)
| Builtin (k : jsstring).

Arguments Return {A} a.
Arguments Throw {A} e.
Arguments Builtin {A} k.

Definition bind {A B} (c : completion A) (f : A -> completion B) : completion B :=
  match c with
  | Return a => f a
  | Throw e => Throw e
  | Builtin k => Builtin k
  end.

Notation "x <- c ;; k" := (bind c (fun x => k))
  (at level 61, c at next level, right associativity).

(* ================================================================== *)
(** ** Input records *)

(** The attribute object [$] of a term. *)
Record Attributes : Type := mkAttributes { type : option jsstring }.

(** One element of [object.grimoire.terms.term]; [attrs] is the member
    [$].  [None] is a member the parser did not produce. *)
Record SourceTerm : Type := mkTerm {
  attrs : option Attributes;
  sourceLanguage : option jsstring;
  language : option jsstring;
  text : option jsstring;
  pattern : option jsstring;
  regex : option jsstring;
  comment : option jsstring
}.

(* ================================================================== *)
(** ** [VnrToYagtFormat] *)

(** The condition of the [if ... continue] at the head of the loop body,
    its disjuncts evaluated from left to right. *)
Definition skip (t : SourceTerm) : completion bool :=
  if strict_equal (js_not (of_field (sourceLanguage t))) (VString (js "ja"))
  then Return true
  else
    match attrs t with
    | None => Throw TypeError
    | Some a =>
        if strict_equal (js_not (of_field (type a))) (VString (js "trans"))
        then Return true
        else if negb (truthy (of_field (text t))) then Return true
        else
          match pattern t with
          | None => Return true
          | Some p =>
              if negb (truthy (VString p)) then Return true
              else if negb (isNaN p) then Return true
              else Return (negb (Nat.ltb 1 (List.length p)))
          end
    end.

(** [existedTerm.sourceLanguages.includes(x)] for a record field [x]:
    the method of arrays, or that of strings when the property holds one. *)
Definition includes (existedTerm : object) (x : option jsstring)
  : completion bool :=
  match get existedTerm (js "sourceLanguages") with
  | VArray l => Return (existsb (strict_equal (of_field x)) l)
  | VString s => Return (is_substring (to_string x) s)
  | VUndefined => Throw TypeError
  | VBool _ => Throw TypeError
  end.

(** [existedTerm.sourceLanguages.push(x)]: the array is extended in
    place, the property keeps its position. *)
Definition push (existedTerm : object) (x : value) : completion object :=
  match get existedTerm (js "sourceLanguages") with
  | VArray l =>
      Return (put existedTerm (js "sourceLanguages") (VArray (l ++ [x])))
  | _ => Throw TypeError
  end.

(** Lines 162-178: the source-language bookkeeping of an existing record. *)
Definition note_source_language (existedTerm : object) (t : SourceTerm)
  : completion object :=
  let sl := of_field (sourceLanguage t) in
  if strict_equal (get existedTerm (js "sourceLanguage")) sl
  then Return existedTerm
  else if truthy (get existedTerm (js "multipleSourceLanguages")) then
    known <- includes existedTerm (sourceLanguage t) ;;
    if negb known then push existedTerm sl else Return existedTerm
  else
    let m1 := set existedTerm (js "multipleSourceLanguages") (VBool true) in
    let m2 := set m1 (js "sourceLanguages") (VArray []) in
    m3 <- push m2 (get m2 (js "sourceLanguage")) ;;
    m4 <- push m3 sl ;;
    Return (remove m4 (js "sourceLanguage")).

(** Lines 161-179: the term is folded into the record found for it. *)
Definition merge (existedTerm : object) (t : SourceTerm) : completion object :=
  existedTerm' <- note_source_language existedTerm t ;;
  Return (set existedTerm' (property_key (language t)) (of_field (text t))).

(** Lines 183-188: the record of a term seen for the first time. *)
Definition oneTerm (t : SourceTerm) : object :=
  let o1 := set [] (js "sourceLanguage") (of_field (sourceLanguage t)) in
  let o2 := set o1 (property_key (language t)) (of_field (text t)) in
  if truthy (of_field (comment t)) then set o2 (js "comment") (of_field (comment t))
  else o2.

(** Lines 190-194: the name under which a new record is stored. *)
Definition store_key (t : SourceTerm) (p : jsstring) : jsstring :=
  if strict_equal (of_field (regex t)) (VString (js "true"))
  then js "/" ++ p ++ js "/"
  else p.

(** [tempFormat.terms]. *)
Definition dict := props object.

(** What [tempFormat.terms[p]] evaluates to. *)
Inductive found : Type :=
| Own (m : object)
| Inherited
| Missing.

Definition lookup (terms : dict) (p : jsstring) : found :=
  match own terms p with
  | Some m => Own m
  | None => if mem p Object_prototype then Inherited else Missing
  end.

(** Which way one iteration of the loop went. *)
Inductive event : Type :=
| Skipped
| Merged (k : jsstring)
| Created (k : jsstring).

(** One iteration of the loop of lines 149-195, for a pattern that is
    the name of a record or of nothing; for a pattern that names a member
    of [Object.prototype] the model stops at [Builtin], see [completion].
    A new record is never stored under [__proto__]: a pattern of that name
    is [Inherited], and a name between slashes is another name. *)
Definition step (terms : dict) (t : SourceTerm) : completion (event * dict) :=
  s <- skip t ;;
  if (s : bool) then Return (Skipped, terms)
  else
    let p := property_key (pattern t) in
    match lookup terms p with
    | Own m =>
        m' <- merge m t ;;
        Return (Merged p, put terms p m')
    | Inherited => Builtin p
    | Missing =>
        let k := store_key t p in
        Return (Created k, put terms k (oneTerm t))
    end.

(** The loop, with the trace of its iterations. *)
Fixpoint run (terms : dict) (vnrFormat : list SourceTerm)
  : completion (list event * dict) :=
  match vnrFormat with
  | [] => Return ([], terms)
  | t :: rest =>
      r <- step terms t ;;
      r' <- run (snd r) rest ;;
      Return (fst r :: fst r', snd r')
  end.

(** [{ pattern: key, ...m }]. *)
Definition flatten (key : jsstring) (m : object) : object :=
  fold_left (fun o kv => put o (fst kv) (snd kv)) m
            [(js "pattern", VString key)].

(** Lines 197-201: the array [yagtFormat.terms]. *)
Definition to_array (terms : dict) : list object :=
  map (fun kv => flatten (fst kv) (snd kv)) terms.

(** The conversion; the result is the array [terms] of the object it
    returns, the argument the array [object.grimoire.terms.term]. *)
Definition VnrToYagtFormat (vnrFormat : list SourceTerm) : completion (list object) :=
  r <- run [] vnrFormat ;;
  Return (to_array (snd r)).

(* ================================================================== *)
(** ** Traces

    The record stored under a name is made by one iteration and then
    changed by those that find it; [contributors] reads this off the trace
    of a run. *)

Definition record_event (K : jsstring) (h : list SourceTerm)
           (te : SourceTerm * event) : list SourceTerm :=
  match snd te with
  | Skipped => h
  | Merged k => if str_eqb k K then h ++ [fst te] else h
  | Created k => if str_eqb k K then [fst te] else h
  end.

(** The terms that made the record now stored under [K], oldest first. *)
Definition contributors (K : jsstring) (tr : list (SourceTerm * event))
  : list SourceTerm :=
  fold_left (record_event K) tr [].

(** The names under which the loop stored a new record (lines 191 and
    193), in the order of the stores. *)
Definition created (evs : list event) : list jsstring :=
  flat_map (fun e => match e with Created k => [k] | _ => [] end) evs.

Definition trace (vnrFormat : list SourceTerm) : list event :=
  match run [] vnrFormat with
  | Return r => fst r
  | _ => []
  end.

Definition stored_keys (vnrFormat : list SourceTerm) : list jsstring :=
  created (trace vnrFormat).

(** A sequence without its repetitions, each element at the place of its
    first occurrence. *)
Definition add_new {A} (eqb : A -> A -> bool) (acc : list A) (x : A) : list A :=
  if existsb (eqb x) acc then acc else acc ++ [x].

Definition first_seen {A} (eqb : A -> A -> bool) (l : list A) : list A :=
  fold_left (add_new eqb) l [].

(* ================================================================== *)
(** ** The words of the specification *)

(** A term passes the filter. *)
Definition eligible (t : SourceTerm) : bool :=
  match skip t with
  | Return false => true
  | _ => false
  end.

(** The effective pattern key: the pattern between slashes when [regex]
    is the string [true], the pattern itself otherwise. *)
Definition effective_key (t : SourceTerm) : jsstring :=
  store_key t (property_key (pattern t)).

(** A purely numeric string: one or more decimal digits and nothing else. *)
Definition purely_numeric (p : jsstring) : bool := all_of is_digit p.

(** No term of the input is flagged as a regular expression. *)
Definition no_regex (t : SourceTerm) : bool :=
  negb (strict_equal (of_field (regex t)) (VString (js "true"))).

(** The names the bookkeeping of source languages uses in a record. *)
Definition bookkeeping : list jsstring :=
  map js ["sourceLanguage"; "sourceLanguages"; "multipleSourceLanguages"]%string.

(** The language of the term is a language code: all the program needs
    of one is that it names a field of its own in the record, not one of
    the bookkeeping. *)
Definition language_code (t : SourceTerm) : bool :=
  negb (mem (property_key (language t)) bookkeeping).

(** The source languages of a sequence of terms, and those of them that
    are strings. *)
Definition source_languages (cs : list SourceTerm) : list (option jsstring) :=
  map sourceLanguage cs.

Definition strings (l : list (option jsstring)) : list jsstring :=
  flat_map (fun f => match f with Some s => [s] | None => [] end) l.


(** The eligible terms of the effective pattern key [K]. *)
Definition keyed (K : jsstring) (t : SourceTerm) : bool :=
  eligible t && str_eqb (effective_key t) K.

(** The language of the term is not the name [k]. *)
Definition language_not (k : jsstring) (t : SourceTerm) : bool :=
  negb (str_eqb (property_key (language t)) k).




(** The eligible terms of the key [K] with the language [L], and the text
    of the last of them. *)
Definition carries (K L : jsstring) (t : SourceTerm) : bool :=
  keyed K t && str_eqb (property_key (language t)) L.

Definition last_text (K L : jsstring) (input : list SourceTerm) : option value :=
  option_map (fun t => of_field (text t)) (find (carries K L) (rev input)).

(** [built cs m]: the record [m] is what the loop makes of the terms [cs],
    the first of which creates it while the others are merged into it in
    turn. *)
Inductive built : list SourceTerm -> object -> Prop :=
| built_create (t : SourceTerm) :
    eligible t = true -> built [t] (oneTerm t)
| built_merge (cs : list SourceTerm) (m : object) (t : SourceTerm) (m' : object) :
    built cs m -> eligible t = true -> merge m t = Return m' ->
    built (cs ++ [t]) m'.

(** The two shapes of the bookkeeping of a record whose contributors have
    the source languages [S]. *)
Definition one_source (m : object) (S : list (option jsstring)) : Prop :=
  own m (js "sourceLanguages") = None /\
  exists f, own m (js "sourceLanguage") = Some (of_field f) /\
            In f S /\ forall g, In g S -> g = f.

Definition many_sources (m : object) (S : list (option jsstring)) : Prop :=
  own m (js "sourceLanguage") = None /\
  exists L, own m (js "sourceLanguages") = Some (VArray (map of_field L)) /\
            NoDup L /\ incl L S /\
            (forall s, In (Some s) S -> In (Some s) L) /\
            strings L = first_seen str_eqb (strings S).

(** Two of the source languages [S] differ. *)
Definition distinct_sources (S : list (option jsstring)) : Prop :=
  exists f g, In f S /\ In g S /\ f <> g.

(** The bookkeeping with its flag. *)
Inductive tracked (m : object) (S : list (option jsstring)) : Prop :=
| tracked_one :
    one_source m S -> own m (js "multipleSourceLanguages") = None ->
    first_seen str_eqb (strings S) = strings (firstn 1 S) ->
    tracked m S
| tracked_many :
    many_sources m S ->
    own m (js "multipleSourceLanguages") = Some (VBool true) ->
    distinct_sources S -> tracked m S.

Ltac codes :=
  unfold is_digit, is_ws, is_sign, in_range in *;
  repeat rewrite ?andb_true_iff, ?orb_true_iff, ?andb_false_iff,
    ?orb_false_iff, ?N.leb_le, ?N.leb_gt, ?N.eqb_eq, ?N.eqb_neq in *;
  lia.


(** Comparisons of the names that occur in the program text. *)
Ltac names :=
  repeat match goal with
         | |- context [str_eqb (js ?a) (js ?b)] =>
             let r := eval vm_compute in (str_eqb (js a) (js b)) in
             change (str_eqb (js a) (js b)) with r
         end;
  cbv iota.

(* ================================================================== *)
(** ** Sample inputs *)

Definition trans : option Attributes := Some (mkAttributes (Some (js "trans"))).

(** A term of type [trans] without [regex] or [comment]. *)
Definition plain_term (sl lang tx pat : string) : SourceTerm :=
  mkTerm trans (Some (js sl)) (Some (js lang)) (Some (js tx)) (Some (js pat))
         None None.

(** The same with [regex] set to the string [true]. *)
Definition regex_term (sl lang tx pat : string) : SourceTerm :=
  mkTerm trans (Some (js sl)) (Some (js lang)) (Some (js tx)) (Some (js pat))
         (Some (js "true")) None.

(** The same as [plain_term], with a comment. *)
Definition commented_term (sl lang tx pat cm : string) : SourceTerm :=
  mkTerm trans (Some (js sl)) (Some (js lang)) (Some (js tx)) (Some (js pat))
         None (Some (js cm)).

(** A term whose element has no attribute at all. *)
Definition bare_term (sl lang tx pat : string) : SourceTerm :=
  mkTerm None (Some (js sl)) (Some (js lang)) (Some (js tx)) (Some (js pat))
         None None.

(** A term of another type than [trans]. *)
Definition name_term (sl lang tx pat : string) : SourceTerm :=
  mkTerm (Some (mkAttributes (Some (js "name"))))
         (Some (js sl)) (Some (js lang)) (Some (js tx)) (Some (js pat))
         None None.

Definition field (k v : string) : jsstring * value := (js k, VString (js v)).

(** Two terms of one pattern with different source languages, then a
    term of another pattern. *)
Definition two_sources : list SourceTerm :=
  [ plain_term "ja" "en" "hi" "hello";
    plain_term "zh" "en" "hey" "hello";
    commented_term "ja" "en" "bye" "sayonara" "parting" ].

Definition two_sources_trace : list event :=
  [ Created (js "hello"); Merged (js "hello"); Created (js "sayonara") ].

Definition hello_record : object :=
  [ field "en" "hey";
    (js "multipleSourceLanguages", VBool true);
    (js "sourceLanguages", VArray [VString (js "ja"); VString (js "zh")]) ].

Definition sayonara_record : object :=
  [ field "sourceLanguage" "ja"; field "en" "bye"; field "comment" "parting" ].

Definition two_sources_terms : dict :=
  [ (js "hello", hello_record); (js "sayonara", sayonara_record) ].


Definition two_sources_output : list object :=
  [ [ field "pattern" "hello"; field "en" "hey";
      (js "multipleSourceLanguages", VBool true);
      (js "sourceLanguages", VArray [VString (js "ja"); VString (js "zh")]) ];
    [ field "pattern" "sayonara"; field "sourceLanguage" "ja";
      field "en" "bye"; field "comment" "parting" ] ].

(** A term with a numeric pattern between two others. *)
Definition numeric_term : SourceTerm := plain_term "ja" "en" "forty-two" "42".

(* ================================================================== *)
(** ** The command line (lines 6-91)

    [parseArgs] and [checkOptions] either go on with the options or end
    the process: they write lines with [console.log] and [console.error]
    and call [process.exit]. *)

Inductive stream : Type := stdout | stderr.

Definition line : Type := (stream * jsstring)%type.

Inductive process (A : Type) : Type :=
| Continue (a : A)
| Exit (status : N) (console : list line).

Arguments Continue {A} a.
Arguments Exit {A} status console.

Definition and_then {A B} (p : process A) (f : A -> process B) : process B :=
  match p with
  | Continue a => f a
  | Exit status console => Exit status console
  end.

Definition DEFAULT_OUTPUT_PATH : jsstring := js "shareddict.json".

(** Lines 47-60: the lines [printHelp] writes. *)
Definition printHelp : list line :=
  [ (stdout, js "Shared Dict VNR to Yagt v1.0.0");
    (stdout, js "Convert VNR shared dict to Yagt format");
    (stdout, js "USAGE: ");
    (stdout, js "  -h  --help                    print this help page and exit");
    (stdout,
     js "  -s  --source=<SOURCE_PATH>    source file path (often named gamedic.xml)");
    (stdout,
     js "  -o  --output=<OUTPUT_PATH>    output file path (default "
        ++ DEFAULT_OUTPUT_PATH ++ js ")") ].

(** Lines 87-91. *)
Definition printPromptAndHelpAndExit {A} (prompt : jsstring) : process A :=
  Exit 0 ((stderr, js "ERROR: " ++ prompt) :: printHelp).

(** The object [options]: its members [source] and [output]. *)
Record Options : Type := mkOptions {
  source : option jsstring;
  output : option jsstring
}.

Definition startsWith (s p : jsstring) : bool := is_prefix p s.

Definition endsWith (s p : jsstring) : bool := is_prefix (rev p) (rev s).

Definition substring (n : nat) (s : jsstring) : jsstring := skipn n s.

(** The condition of line 23. *)
Definition help_requested (args : list jsstring) : bool :=
  Nat.ltb (List.length args) 3 ||
  strict_equal (of_field (nth_error args 2)) (VString (js "-h")) ||
  strict_equal (of_field (nth_error args 2)) (VString (js "--help")).

(** Lines 29-39: the body of the loop at the index [i]; [for ... in]
    yields the indices of the array only, so [args[i]] is an element. *)
Definition parse_at (args : list jsstring) (options : Options) (i : nat) : Options :=
  match nth_error args i with
  | None => options
  | Some a =>
      let options1 :=
        if strict_equal (VString a) (VString (js "-s")) &&
           Nat.leb (i + 2) (List.length args)
        then mkOptions (nth_error args (i + 1)) (output options)
        else if startsWith a (js "--source=")
             then mkOptions (Some (substring 9 a)) (output options)
             else options in
      if strict_equal (VString a) (VString (js "-o")) &&
         Nat.leb (i + 2) (List.length args)
      then mkOptions (source options1) (nth_error args (i + 1))
      else if startsWith a (js "--output=")
           then mkOptions (source options1) (Some (substring 9 a))
           else options1
  end.

(** Lines 22-42. *)
Definition parseArgs (args : list jsstring) : process Options :=
  if help_requested args then Exit 0 printHelp
  else Continue (fold_left (parse_at args) (seq 0 (List.length args))
                           (mkOptions None None)).

(** Lines 68-81; the result is the object [options] after the assignment
    of line 76.  [!options.source] holds of a missing member and of the
    empty string. *)
Definition checkOptions (options : Options) : process Options :=
  match source options with
  | None | Some [] =>
      printPromptAndHelpAndExit (js "need to specify source file path")
  | Some s =>
      if negb (endsWith s (js ".xml"))
      then printPromptAndHelpAndExit (js "source file needs to be a XML file")
      else
        let o :=
          match output options with
          | None | Some [] => DEFAULT_OUTPUT_PATH
          | Some o => o
          end in
        if negb (endsWith o (js ".json"))
        then printPromptAndHelpAndExit (js "output file needs to be a JSON file")
        else Continue (mkOptions (Some s) (Some o))
  end.

(** Lines 7-9 of [main]: the options [loadUserDict] and [saveUserDict]
    are called with. *)
Definition main_options (args : list jsstring) : process Options :=
  and_then (parseArgs args) checkOptions.

(** The loop of [parseArgs] read along the list: an argument and the one
    that follows it, if any. *)
Definition parse_one (a : jsstring) (next : option jsstring) (options : Options)
  : Options :=
  let options1 :=
    if str_eqb a (js "-s") && match next with Some _ => true | None => false end
    then mkOptions next (output options)
    else if startsWith a (js "--source=")
         then mkOptions (Some (substring 9 a)) (output options)
         else options in
  if str_eqb a (js "-o") && match next with Some _ => true | None => false end
  then mkOptions (source options1) next
  else if startsWith a (js "--output=")
       then mkOptions (source options1) (Some (substring 9 a))
       else options1.

Fixpoint scan (l : list jsstring) (options : Options) : Options :=
  match l with
  | [] => options
  | a :: rest => scan rest (parse_one a (hd_error rest) options)
  end.

(** An argument that sets the source: [-s] followed by something, or
    [--source=...]; likewise for the output. *)
Definition sets_source (a : jsstring) (next : option jsstring) : bool :=
  (str_eqb a (js "-s") && match next with Some _ => true | None => false end)
  || startsWith a (js "--source=").

Definition sets_output (a : jsstring) (next : option jsstring) : bool :=
  (str_eqb a (js "-o") && match next with Some _ => true | None => false end)
  || startsWith a (js "--output=").

Fixpoint no_source_option (l : list jsstring) : bool :=
  match l with
  | [] => true
  | a :: rest => negb (sets_source a (hd_error rest)) && no_source_option rest
  end.

Fixpoint no_output_option (l : list jsstring) : bool :=
  match l with
  | [] => true
  | a :: rest => negb (sets_output a (hd_error rest)) && no_output_option rest
  end.

(** A command line for the samples. *)
Definition node_script : list jsstring := [js "node"; js "index.js"].

(* ================================================================== *)
(** ** More words for the Term Mapper *)

(** The bookkeeping of the record has nothing to do for the source
    language of the term: lines 162 or 167 find it accounted for. *)
Definition settled (m : object) (t : SourceTerm) : Prop :=
  strict_equal (get m (js "sourceLanguage")) (of_field (sourceLanguage t)) = true \/
  (strict_equal (get m (js "sourceLanguage")) (of_field (sourceLanguage t)) = false /\
   truthy (get m (js "multipleSourceLanguages")) = true /\
   includes m (sourceLanguage t) = Return true).

(** The field [pattern] of an output term. *)
Definition pattern_of (o : object) : value := get o (js "pattern").



(* ================================================================== *)
(** ** The inputs on which a run is followed to its end *)

(** The pattern of the term is not the name of a member of
    [Object.prototype]. *)
Definition own_pattern (t : SourceTerm) : bool :=
  negb (mem (property_key (pattern t)) Object_prototype).

(** The bookkeeping of a record and the source languages [S] of its
    contributors: the single field when they all agree, the array when two
    of them differ. *)
Definition source_shape (m : object) (S : list (option jsstring)) : Prop :=
  (one_source m S /\ ~ distinct_sources S) \/
  (many_sources m S /\ distinct_sources S).

(** The languages whose field in an output term holds a text: not a name
    the record or the output term uses itself. *)
Definition language_field (L : jsstring) : bool :=
  negb (mem L bookkeeping) && negb (str_eqb (js "comment") L) &&
  negb (str_eqb L (js "__proto__")) && negb (str_eqb (js "pattern") L).

(** Two regular-expression terms of one pattern with different source
    languages. *)
Definition regex_two_sources : list SourceTerm :=
  [ regex_term "ja" "en" "a" "foo"; regex_term "zh" "en" "b" "foo" ].

(** An eligible term whose pattern is the name [__proto__]. *)
Definition inherited_name_term : SourceTerm := plain_term "ja" "en" "hi" "__proto__".

(* ================================================================== *)
(** * Properties *)

(** ** Strings and property names *)

Lemma str_eqb_eq (a b : jsstring) : str_eqb a b = true <-> a = b.
Proof.
  revert b; induction a as [|x a IH]; intros [|y b]; simpl;
    try (split; intros; [reflexivity || discriminate ..]; fail).
  rewrite andb_true_iff, N.eqb_eq, IH. split.
  - intros [-> ->]; reflexivity.
  - intros H; inversion H; auto.
Qed.

Lemma str_eqb_refl (a : jsstring) : str_eqb a a = true.
Proof. apply str_eqb_eq; reflexivity. Qed.

Lemma str_eqb_neq (a b : jsstring) : str_eqb a b = false <-> a <> b.
Proof.
  rewrite <- str_eqb_eq. destruct (str_eqb a b); split; congruence.
Qed.

Lemma str_eqb_sym (a b : jsstring) : str_eqb a b = str_eqb b a.
Proof.
  destruct (str_eqb a b) eqn:E.
  - apply str_eqb_eq in E; subst; symmetry; apply str_eqb_refl.
  - symmetry; apply str_eqb_neq. apply str_eqb_neq in E; congruence.
Qed.

Section PropertyFacts.
Context {V : Type}.
Implicit Types (o : props V) (k : jsstring) (v : V).

Lemma own_None o k : own o k = None <-> ~ In k (keys o).
Proof.
  induction o as [|[k' v'] r IH]; simpl.
  - tauto.
  - destruct (str_eqb k' k) eqn:E.
    + apply str_eqb_eq in E; subst. split; [discriminate | tauto].
    + apply str_eqb_neq in E. rewrite IH. tauto.
Qed.

Lemma has_own_false o k : has_own o k = false <-> ~ In k (keys o).
Proof.
  unfold has_own. rewrite <- own_None.
  destruct (own o k); split; congruence.
Qed.

Lemma In_own o k v : NoDup (keys o) -> In (k, v) o -> own o k = Some v.
Proof.
  induction o as [|[k' v'] r IH]; simpl; [tauto|].
  intros ND [E | HI].
  - inversion E; subst. rewrite str_eqb_refl; reflexivity.
  - inversion ND as [|? ? Hn ND']; subst.
    destruct (str_eqb k' k) eqn:E.
    + apply str_eqb_eq in E; subst. exfalso; apply Hn.
      change (In (fst (k, v)) (map fst r)). apply in_map; exact HI.
    + auto.
Qed.

Lemma keys_replace o k v : keys (replace o k v) = keys o.
Proof.
  induction o as [|[k' v'] r IH]; simpl; [reflexivity|].
  destruct (str_eqb k' k); simpl; [reflexivity | f_equal; exact IH].
Qed.

Lemma own_replace o k v k' :
  own (replace o k v) k' =
  if str_eqb k k' then option_map (fun _ => v) (own o k') else own o k'.
Proof.
  induction o as [|[k0 v0] r IH]; simpl.
  - destruct (str_eqb k k'); reflexivity.
  - destruct (str_eqb k0 k) eqn:E0; simpl.
    + apply str_eqb_eq in E0; subst k0.
      destruct (str_eqb k k'); reflexivity.
    + destruct (str_eqb k0 k') eqn:E1.
      * apply str_eqb_eq in E1; subst k0.
        rewrite str_eqb_sym in E0. rewrite E0; reflexivity.
      * exact IH.
Qed.

Lemma own_insert_index o i k v k' :
  own o k = None ->
  own (insert_index o i k v) k' =
  if str_eqb k k' then Some v else own o k'.
Proof.
  induction o as [|[k0 v0] r IH]; simpl; intros Hk.
  - reflexivity.
  - destruct (str_eqb k0 k) eqn:E0; [discriminate|].
    destruct (array_index k0) as [j|]; [destruct (N.ltb j i)|]; simpl;
      try reflexivity.
    rewrite (IH Hk). destruct (str_eqb k0 k') eqn:E1; [|reflexivity].
    apply str_eqb_eq in E1; subst k0.
    rewrite str_eqb_sym in E0; rewrite E0; reflexivity.
Qed.

Lemma keys_insert_index o i k v k' :
  In k' (keys (insert_index o i k v)) <-> k' = k \/ In k' (keys o).
Proof.
  induction o as [|[k0 v0] r IH]; simpl.
  - intuition congruence.
  - destruct (array_index k0) as [j|]; [destruct (N.ltb j i)|]; simpl;
      try rewrite IH; intuition congruence.
Qed.

Lemma NoDup_insert_index o i k v :
  ~ In k (keys o) -> NoDup (keys o) -> NoDup (keys (insert_index o i k v)).
Proof.
  induction o as [|[k0 v0] r IH]; simpl; intros Hn ND.
  - constructor; [tauto | constructor].
  - inversion ND as [|? ? Hn0 ND']; subst.
    assert (Hcons : NoDup (k :: k0 :: keys r)).
    { constructor; [simpl; tauto | exact ND]. }
    destruct (array_index k0) as [j|]; [destruct (N.ltb j i)|]; simpl;
      try exact Hcons.
    constructor.
    + rewrite keys_insert_index. intros [E | HI]; [subst; tauto | tauto].
    + apply IH; tauto.
Qed.

Lemma own_app o o' k :
  own (o ++ o') k = match own o k with Some v => Some v | None => own o' k end.
Proof.
  induction o as [|[k0 v0] r IH]; simpl; [reflexivity|].
  destruct (str_eqb k0 k); [reflexivity | exact IH].
Qed.

Lemma own_put o k v k' :
  own (put o k v) k' = if str_eqb k k' then Some v else own o k'.
Proof.
  unfold put, has_own. destruct (own o k) as [v0|] eqn:E.
  - rewrite own_replace. destruct (str_eqb k k') eqn:E'; [|reflexivity].
    apply str_eqb_eq in E'; subst. rewrite E; reflexivity.
  - destruct (array_index k) as [i|].
    + apply own_insert_index; exact E.
    + rewrite own_app. simpl. destruct (str_eqb k k') eqn:E'.
      * apply str_eqb_eq in E'; subst. rewrite E; reflexivity.
      * destruct (own o k'); reflexivity.
Qed.

Lemma own_put_same o k v : own (put o k v) k = Some v.
Proof. rewrite own_put, str_eqb_refl; reflexivity. Qed.

Lemma NoDup_put o k v : NoDup (keys o) -> NoDup (keys (put o k v)).
Proof.
  intros ND. unfold put. destruct (has_own o k) eqn:E.
  - rewrite keys_replace; exact ND.
  - apply has_own_false in E. destruct (array_index k) as [i|].
    + apply NoDup_insert_index; assumption.
    + unfold keys. rewrite map_app. simpl.
      apply NoDup_app; [exact ND | constructor; [tauto|constructor] |].
      intros x Hx [<-|[]]. exact (E Hx).
Qed.

(** A name that is not an array index goes to the end when it is new and
    keeps its place otherwise. *)
Lemma keys_put_plain o k v :
  array_index k = None ->
  keys (put o k v) = if has_own o k then keys o else keys o ++ [k].
Proof.
  intros Hk. unfold put. destruct (has_own o k).
  - apply keys_replace.
  - rewrite Hk. unfold keys. rewrite map_app. reflexivity.
Qed.

Lemma own_remove o k k' :
  own (remove o k) k' = if str_eqb k k' then None else own o k'.
Proof.
  unfold remove. induction o as [|[k0 v0] r IH]; simpl.
  - destruct (str_eqb k k'); reflexivity.
  - destruct (str_eqb k0 k) eqn:E0; simpl.
    + apply str_eqb_eq in E0; subst k0. rewrite IH.
      destruct (str_eqb k k'); reflexivity.
    + rewrite IH. destruct (str_eqb k0 k') eqn:E1; [|reflexivity].
      apply str_eqb_eq in E1; subst k0.
      rewrite str_eqb_sym in E0; rewrite E0; reflexivity.
Qed.

Lemma NoDup_remove o k : NoDup (keys o) -> NoDup (keys (remove o k)).
Proof.
  unfold remove. induction o as [|[k0 v0] r IH]; simpl; intros ND.
  - constructor.
  - inversion ND as [|? ? Hn ND']; subst.
    destruct (str_eqb k0 k); simpl; [auto|].
    constructor; [|auto].
    intros HI. apply Hn. unfold keys in *.
    apply in_map_iff in HI. destruct HI as (x & Hx & HI).
    apply filter_In in HI. apply in_map_iff. exists x; tauto.
Qed.
End PropertyFacts.

(** ** Numerals *)

Lemma digit_not_ws (c : codeunit) : is_digit c = true -> is_ws c = false.
Proof. codes. Qed.

Lemma digit_not_sign (c : codeunit) : is_digit c = true -> is_sign c = false.
Proof. codes. Qed.

Lemma drop_while_all (p : codeunit -> bool) (s : jsstring) :
  forallb p s = true -> drop_while p s = [].
Proof.
  induction s as [|c r IH]; simpl; [reflexivity|].
  rewrite andb_true_iff. intros [-> H]. auto.
Qed.

Lemma drop_ws_digits (s : jsstring) :
  forallb is_digit s = true -> drop_while is_ws s = s.
Proof.
  destruct s as [|c r]; simpl; [reflexivity|].
  rewrite andb_true_iff. intros [H _].
  rewrite (digit_not_ws _ H). reflexivity.
Qed.

Lemma forallb_rev (p : codeunit -> bool) (s : jsstring) :
  forallb p (rev s) = forallb p s.
Proof.
  induction s as [|c r IH]; simpl; [reflexivity|].
  rewrite forallb_app, IH. simpl. rewrite andb_true_r. apply andb_comm.
Qed.

Lemma trim_digits (s : jsstring) : forallb is_digit s = true -> trim s = s.
Proof.
  intros H. unfold trim. rewrite (drop_ws_digits s H).
  rewrite drop_ws_digits by (rewrite forallb_rev; exact H).
  apply rev_involutive.
Qed.

(** A string of decimal digits converts to a number. *)
Lemma digits_not_NaN (p : jsstring) : purely_numeric p = true -> isNaN p = false.
Proof.
  unfold purely_numeric, all_of, isNaN.
  destruct p as [|c r]; [discriminate|]. intros H.
  rewrite (trim_digits _ H). simpl in H. apply andb_true_iff in H.
  destruct H as [Hc Hr].
  unfold str_numeric_literal. rewrite (digit_not_sign _ Hc).
  assert (U : unsigned_decimal (c :: r) = true).
  { unfold unsigned_decimal.
    replace (str_eqb (c :: r) (js "Infinity")) with false.
    - simpl. rewrite Hc, (drop_while_all _ _ Hr). reflexivity.
    - simpl. replace (N.eqb c 73) with false; [reflexivity|].
      symmetry. codes. }
  rewrite U, orb_true_r. reflexivity.
Qed.

Lemma digits_value_digits (acc : N) (s : jsstring) (n : N) :
  digits_value acc s = Some n -> forallb is_digit s = true.
Proof.
  revert acc; induction s as [|c r IH]; simpl; intros acc; [reflexivity|].
  destruct (is_digit c); [|discriminate]. apply IH.
Qed.

Lemma array_index_numeric (k : jsstring) (n : N) :
  array_index k = Some n -> purely_numeric k = true.
Proof.
  unfold array_index, purely_numeric, all_of.
  destruct k as [|c r]; [discriminate|].
  destruct (N.eqb c 48) eqn:E.
  - apply N.eqb_eq in E; subst. destruct r; [reflexivity | discriminate].
  - destruct (digits_value 0 (c :: r)) as [m|] eqn:D; [|discriminate].
    intros _. exact (digits_value_digits _ _ _ D).
Qed.

(** A name the filter lets through is never an array index, with or
    without the slashes of a regular expression. *)
Lemma NaN_not_index (p : jsstring) : isNaN p = true -> array_index p = None.
Proof.
  intros H. destruct (array_index p) as [n|] eqn:E; [|reflexivity].
  apply array_index_numeric, digits_not_NaN in E. congruence.
Qed.

Lemma slashes_not_index (p : jsstring) : array_index (js "/" ++ p ++ js "/") = None.
Proof. reflexivity. Qed.

(** ** Assignment to a record *)

Lemma own_set (o : object) (k : jsstring) (v : value) (k' : jsstring) :
  own (set o k v) k' =
  if str_eqb k (js "__proto__") then own o k'
  else if str_eqb k k' then Some v else own o k'.
Proof.
  unfold set. destruct (str_eqb k (js "__proto__")); [reflexivity|].
  apply own_put.
Qed.

Lemma own_set_other (o : object) (k : jsstring) (v : value) (k' : jsstring) :
  str_eqb k k' = false -> own (set o k v) k' = own o k'.
Proof.
  intros H. rewrite own_set, H. destruct (str_eqb k (js "__proto__")); reflexivity.
Qed.

Lemma NoDup_set (o : object) (k : jsstring) (v : value) :
  NoDup (keys o) -> NoDup (keys (set o k v)).
Proof.
  unfold set. destruct (str_eqb k (js "__proto__")); [auto|]. apply NoDup_put.
Qed.

Lemma get_own (o : object) (k : jsstring) (v : value) :
  own o k = Some v -> get o k = v.
Proof. unfold get; intros ->; reflexivity. Qed.

Lemma get_absent (o : object) (k : jsstring) :
  own o k = None -> get o k = VUndefined.
Proof. unfold get; intros ->; reflexivity. Qed.

(** The spread of [flatten] copies every own property of the record. *)
Lemma own_spread (m acc : object) (k : jsstring) :
  NoDup (keys m) ->
  own (fold_left (fun o kv => put o (fst kv) (snd kv)) m acc) k =
  match own m k with Some v => Some v | None => own acc k end.
Proof.
  revert acc; induction m as [|[k0 v0] r IH]; simpl; intros acc ND.
  - reflexivity.
  - inversion ND as [|? ? Hn ND']; subst. rewrite (IH _ ND'), own_put.
    destruct (str_eqb k0 k) eqn:E.
    + apply str_eqb_eq in E; subst k0.
      apply own_None in Hn. rewrite Hn. reflexivity.
    + reflexivity.
Qed.

Lemma own_flatten (K : jsstring) (m : object) (k : jsstring) :
  NoDup (keys m) -> str_eqb (js "pattern") k = false ->
  own (flatten K m) k = own m k.
Proof.
  intros ND Hk. unfold flatten. rewrite (own_spread _ _ _ ND).
  change (own [(js "pattern", VString K)] k)
    with (if str_eqb (js "pattern") k then Some (VString K) else None).
  rewrite Hk. destruct (own m k); reflexivity.
Qed.

Lemma own_flatten_pattern (K : jsstring) (m : object) :
  NoDup (keys m) -> own m (js "pattern") = None ->
  own (flatten K m) (js "pattern") = Some (VString K).
Proof.
  intros ND Hk. unfold flatten. rewrite (own_spread _ _ _ ND), Hk. reflexivity.
Qed.

(** ** First occurrences *)

Section FirstSeen.
Context {A : Type} (eqb : A -> A -> bool).
Hypothesis eqb_eq : forall x y, eqb x y = true <-> x = y.

Lemma existsb_eqb (x : A) (l : list A) : existsb (eqb x) l = true <-> In x l.
Proof.
  rewrite existsb_exists. split.
  - intros (y & Hy & E). apply eqb_eq in E; subst; exact Hy.
  - intros H; exists x; split; [exact H | apply eqb_eq; reflexivity].
Qed.

Lemma first_seen_snoc (l : list A) (x : A) :
  first_seen eqb (l ++ [x]) = add_new eqb (first_seen eqb l) x.
Proof. unfold first_seen. rewrite fold_left_app. reflexivity. Qed.



Lemma NoDup_add_new (acc : list A) (x : A) :
  NoDup acc -> NoDup (add_new eqb acc x).
Proof.
  intros ND. unfold add_new. destruct (existsb (eqb x) acc) eqn:E; [exact ND|].
  apply NoDup_app; [exact ND | constructor; [intros []|constructor] |].
  intros y Hy [<-|[]].
  apply existsb_eqb in Hy. congruence.
Qed.

Lemma NoDup_first_seen (l : list A) : NoDup (first_seen eqb l).
Proof.
  induction l as [|y l IH] using rev_ind.
  - constructor.
  - rewrite first_seen_snoc. apply NoDup_add_new; exact IH.
Qed.
End FirstSeen.

(** ** The filter *)

Lemma Return_inj {A : Type} (a b : A) : Return a = Return b -> a = b.
Proof. congruence. Qed.

(** The first two disjuncts compare a boolean with a string. *)
Lemma not_never_equal (v : value) (s : jsstring) :
  strict_equal (js_not v) (VString s) = false.
Proof. reflexivity. Qed.

Lemma skip_attrs (t : SourceTerm) (a : Attributes) :
  attrs t = Some a ->
  skip t =
  Return (negb (truthy (of_field (text t))) ||
          match pattern t with
          | None => true
          | Some p => negb (truthy (VString p)) || negb (isNaN p) ||
                      negb (Nat.ltb 1 (List.length p))
          end).
Proof.
  intros Ha. unfold skip. rewrite !not_never_equal, Ha.
  destruct (truthy (of_field (text t))); simpl; [|reflexivity].
  destruct (pattern t) as [p|]; [|reflexivity].
  destruct p as [|c r]; simpl; [reflexivity|].
  destruct (isNaN (c :: r)); reflexivity.
Qed.

Lemma skip_no_attrs (t : SourceTerm) : attrs t = None -> skip t = Throw TypeError.
Proof. intros Ha. unfold skip. rewrite not_never_equal, Ha. reflexivity. Qed.

Lemma eligible_skip (t : SourceTerm) : eligible t = true <-> skip t = Return false.
Proof.
  unfold eligible. destruct (skip t) as [[|]| |]; split; congruence.
Qed.

Lemma eligible_inv (t : SourceTerm) :
  eligible t = true ->
  exists a p, attrs t = Some a /\ pattern t = Some p /\
              truthy (of_field (text t)) = true /\ isNaN p = true /\
              (1 < List.length p)%nat.
Proof.
  intros H. apply eligible_skip in H.
  destruct (attrs t) as [a|] eqn:Ha.
  - rewrite (skip_attrs t a Ha) in H. injection H as H.
    apply orb_false_iff in H. destruct H as [Ht Hp].
    destruct (pattern t) as [p|]; [|discriminate].
    apply orb_false_iff in Hp. destruct Hp as [Hp Hl].
    apply orb_false_iff in Hp. destruct Hp as [_ Hn].
    exists a, p. repeat split; try reflexivity.
    + destruct (truthy (of_field (text t))); [reflexivity | discriminate].
    + destruct (isNaN p); [reflexivity | discriminate].
    + apply Nat.ltb_lt. destruct (Nat.ltb 1 (List.length p)); [reflexivity | discriminate].
  - rewrite (skip_no_attrs t Ha) in H. discriminate.
Qed.

(** The name a record is stored under is never an array index. *)
Lemma store_key_not_index (t : SourceTerm) (p : jsstring) :
  isNaN p = true -> array_index (store_key t p) = None.
Proof.
  intros H. unfold store_key.
  destruct (strict_equal (of_field (regex t)) (VString (js "true"))).
  - apply slashes_not_index.
  - apply NaN_not_index; exact H.
Qed.

Lemma store_key_not_proto (t : SourceTerm) (p : jsstring) :
  mem p Object_prototype = false ->
  str_eqb (store_key t p) (js "__proto__") = false.
Proof.
  intros H. unfold store_key.
  destruct (strict_equal (of_field (regex t)) (VString (js "true"))).
  - reflexivity.
  - destruct (str_eqb p (js "__proto__")) eqn:E; [|reflexivity].
    assert (M : mem p Object_prototype = true); [|congruence].
    apply existsb_exists. exists (js "__proto__"). split; [|exact E].
    unfold Object_prototype. apply in_map.
    repeat (try (left; reflexivity); right).
Qed.

(** ** One iteration *)

Lemma step_inv (st : dict) (t : SourceTerm) (e : event) (st' : dict) :
  step st t = Return (e, st') ->
  (skip t = Return true /\ e = Skipped /\ st' = st) \/
  (exists p m m', eligible t = true /\ pattern t = Some p /\
                  own st p = Some m /\ merge m t = Return m' /\
                  e = Merged p /\ st' = put st p m') \/
  (exists p, eligible t = true /\ pattern t = Some p /\
             own st p = None /\ mem p Object_prototype = false /\
             e = Created (store_key t p) /\
             st' = put st (store_key t p) (oneTerm t)).
Proof.
  unfold step. destruct (skip t) as [[|]| |] eqn:Hs; simpl; try discriminate.
  - intros [= <- <-]. left; auto.
  - assert (He : eligible t = true) by (apply eligible_skip; exact Hs).
    destruct (eligible_inv t He) as (a & p & _ & Hp & _).
    rewrite Hp. simpl. unfold lookup.
    destruct (own st p) as [m|] eqn:Ho.
    + destruct (merge m t) as [m'| |] eqn:Hm; simpl; try discriminate.
      intros [= <- <-]. right; left. exists p, m, m'. auto 10.
    + destruct (mem p Object_prototype) eqn:Hi; [discriminate|].
      intros [= <- <-]. right; right. exists p. auto 10.
Qed.

Lemma run_cons (st : dict) (t : SourceTerm) (rest : list SourceTerm)
      (evs : list event) (st' : dict) :
  run st (t :: rest) = Return (evs, st') ->
  exists e st1 evs', step st t = Return (e, st1) /\
                     run st1 rest = Return (evs', st') /\ evs = e :: evs'.
Proof.
  simpl. destruct (step st t) as [[e st1]| |] eqn:Hs; simpl; try discriminate.
  destruct (run st1 rest) as [[evs' st2]| |] eqn:Hr; simpl; try discriminate.
  intros [= <- <-]. exists e, st1, evs'. auto.
Qed.

Lemma run_app (l1 l2 : list SourceTerm) :
  forall st,
  run st (l1 ++ l2) =
  r1 <- run st l1 ;; r2 <- run (snd r1) l2 ;; Return (fst r1 ++ fst r2, snd r2).
Proof.
  induction l1 as [|t rest IH]; intros st; simpl.
  - destruct (run st l2) as [[evs st']| |]; reflexivity.
  - destruct (step st t) as [[e st1]| |]; simpl; try reflexivity.
    rewrite IH. destruct (run st1 rest) as [[evs1 st2]| |]; simpl; try reflexivity.
    destruct (run st2 l2) as [[evs2 st3]| |]; reflexivity.
Qed.

Lemma convert_run (input : list SourceTerm) (out : list object) :
  VnrToYagtFormat input = Return out ->
  exists evs st, run [] input = Return (evs, st) /\ out = to_array st.
Proof.
  unfold VnrToYagtFormat. destruct (run [] input) as [[evs st]| |]; simpl; try discriminate.
  intros [= <-]. exists evs, st. auto.
Qed.

(** ** The names in [tempFormat.terms] *)

Lemma has_own_keys {V : Type} (o : props V) (k : jsstring) :
  has_own o k = existsb (str_eqb k) (keys o).
Proof.
  unfold has_own. induction o as [|[k0 v0] r IH]; simpl; [reflexivity|].
  rewrite (str_eqb_sym k k0). destruct (str_eqb k0 k); [reflexivity | exact IH].
Qed.

Lemma step_keys (st : dict) (t : SourceTerm) (e : event) (st' : dict) :
  step st t = Return (e, st') ->
  keys st' = fold_left (add_new str_eqb) (created [e]) (keys st).
Proof.
  intros H. apply step_inv in H.
  destruct H as [(_ & -> & ->) | [(p & m & m' & _ & _ & Ho & _ & -> & ->)
                                 | (p & He & Hp & _ & _ & -> & ->)]]; simpl.
  - reflexivity.
  - unfold put, has_own. rewrite Ho. apply keys_replace.
  - destruct (eligible_inv t He) as (a & p' & _ & Hp' & _ & Hn & _).
    assert (p' = p) by congruence; subst p'.
    rewrite keys_put_plain by (apply store_key_not_index; exact Hn).
    unfold add_new. rewrite has_own_keys. reflexivity.
Qed.

Lemma run_keys (input : list SourceTerm) :
  forall st evs st', run st input = Return (evs, st') ->
  keys st' = fold_left (add_new str_eqb) (created evs) (keys st).
Proof.
  induction input as [|t rest IH]; intros st evs st' H.
  - simpl in H. injection H as <- <-. reflexivity.
  - apply run_cons in H. destruct H as (e & st1 & evs' & Hs & Hr & ->).
    rewrite (IH _ _ _ Hr), (step_keys _ _ _ _ Hs).
    replace (created (e :: evs')) with (created [e] ++ created evs')
      by (destruct e; reflexivity).
    rewrite fold_left_app. reflexivity.
Qed.

(** ** Records and their contributors *)

Lemma step_built (st : dict) (t : SourceTerm) (e : event) (st' : dict)
      (h : jsstring -> list SourceTerm) :
  step st t = Return (e, st') ->
  (forall K m, own st K = Some m -> built (h K) m) ->
  forall K m, own st' K = Some m -> built (record_event K (h K) (t, e)) m.
Proof.
  intros Hs Hh K m Hm. apply step_inv in Hs.
  destruct Hs as [(_ & -> & ->) | [(p & m0 & m' & He & _ & Ho & Hmg & -> & ->)
                                  | (p & He & _ & _ & _ & -> & ->)]];
    unfold record_event; simpl.
  - auto.
  - rewrite own_put in Hm. destruct (str_eqb p K) eqn:E.
    + apply str_eqb_eq in E; subst K. injection Hm as <-.
      exact (built_merge _ _ _ _ (Hh _ _ Ho) He Hmg).
    + auto.
  - rewrite own_put in Hm. destruct (str_eqb (store_key t p) K) eqn:E.
    + injection Hm as <-. exact (built_create _ He).
    + auto.
Qed.

Lemma run_built (input : list SourceTerm) :
  forall st evs st' (h : jsstring -> list SourceTerm),
  run st input = Return (evs, st') ->
  (forall K m, own st K = Some m -> built (h K) m) ->
  forall K m, own st' K = Some m ->
  built (fold_left (record_event K) (combine input evs) (h K)) m.
Proof.
  induction input as [|t rest IH]; intros st evs st' h H Hh K m Hm.
  - simpl in H. injection H as <- <-. simpl. auto.
  - apply run_cons in H. destruct H as (e & st1 & evs' & Hs & Hr & ->). simpl.
    exact (IH st1 evs' st' (fun K => record_event K (h K) (t, e)) Hr
              (step_built _ _ _ _ h Hs Hh) K m Hm).
Qed.

(** Every record of the final mapping is built from its contributors. *)
Lemma run_contributors (input : list SourceTerm) (evs : list event) (st : dict)
      (K : jsstring) (m : object) :
  run [] input = Return (evs, st) -> own st K = Some m ->
  built (contributors K (combine input evs)) m.
Proof.
  intros H Hm.
  apply (run_built input [] evs st (fun _ => []) H); [discriminate | exact Hm].
Qed.

Lemma record_event_incl (K : jsstring) (tr : list (SourceTerm * event)) :
  forall h t, In t (fold_left (record_event K) tr h) ->
              In t h \/ In t (map fst tr).
Proof.
  induction tr as [|[t0 e] tr IH]; intros h t Ht; simpl in *; [auto|].
  apply IH in Ht. destruct Ht as [Ht|Ht]; [|auto].
  unfold record_event in Ht. simpl in Ht.
  destruct e as [|k|k]; [auto| |]; destruct (str_eqb k K); auto.
  - apply in_app_iff in Ht. destruct Ht as [Ht|[<-|[]]]; auto.
  - destruct Ht as [<-|[]]; auto.
Qed.

Lemma contributors_incl (K : jsstring) (input : list SourceTerm) (evs : list event) :
  incl (contributors K (combine input evs)) input.
Proof.
  intros t Ht. apply record_event_incl in Ht. destruct Ht as [[]|Ht].
  apply in_map_iff in Ht. destruct Ht as ([t' e] & <- & Hin).
  exact (in_combine_l _ _ _ _ Hin).
Qed.

Lemma contributors_all (P : SourceTerm -> bool) (K : jsstring)
      (input : list SourceTerm) (evs : list event) :
  forallb P input = true ->
  Forall (fun t => P t = true) (contributors K (combine input evs)).
Proof.
  intros H. apply Forall_forall. intros t Ht.
  apply contributors_incl in Ht. rewrite forallb_forall in H. auto.
Qed.

(** Records keep their names apart. *)
Lemma NoDup_create (t : SourceTerm) : NoDup (keys (oneTerm t)).
Proof.
  unfold oneTerm. destruct (truthy (of_field (comment t)));
    repeat apply NoDup_set; constructor.
Qed.

Lemma NoDup_push (m : object) (x : value) (m' : object) :
  NoDup (keys m) -> push m x = Return m' -> NoDup (keys m').
Proof.
  unfold push. destruct (get m (js "sourceLanguages")); try discriminate.
  intros ND [= <-]. apply NoDup_put; exact ND.
Qed.

Lemma NoDup_note (m : object) (t : SourceTerm) (m' : object) :
  NoDup (keys m) -> note_source_language m t = Return m' -> NoDup (keys m').
Proof.
  intros ND. unfold note_source_language.
  destruct (strict_equal _ _); [intros [= <-]; exact ND|].
  destruct (truthy _).
  - destruct (includes m (sourceLanguage t)) as [[|]| |]; simpl; try discriminate.
    + intros [= <-]; exact ND.
    + apply NoDup_push; exact ND.
  - match goal with
    | |- context [push ?m2 ?x] =>
        destruct (push m2 x) as [m3| |] eqn:P3; simpl; try discriminate;
        apply NoDup_push in P3; [|repeat apply NoDup_set; exact ND]
    end.
    destruct (push m3 _) as [m4| |] eqn:P4; simpl; try discriminate.
    apply NoDup_push in P4; [|exact P3].
    intros [= <-]. apply NoDup_remove; exact P4.
Qed.

Lemma NoDup_merge (m : object) (t : SourceTerm) (m' : object) :
  NoDup (keys m) -> merge m t = Return m' -> NoDup (keys m').
Proof.
  intros ND. unfold merge.
  destruct (note_source_language m t) as [m1| |] eqn:E; simpl; try discriminate.
  intros [= <-]. apply NoDup_set. exact (NoDup_note _ _ _ ND E).
Qed.

Lemma built_NoDup (cs : list SourceTerm) (m : object) :
  built cs m -> NoDup (keys m).
Proof.
  induction 1 as [t _|cs m t m' _ IH _ Hm].
  - apply NoDup_create.
  - exact (NoDup_merge _ _ _ IH Hm).
Qed.


(** ** Inputs without regular expressions *)

Lemma no_regex_key (t : SourceTerm) :
  no_regex t = true -> effective_key t = property_key (pattern t).
Proof.
  unfold no_regex, effective_key, store_key. intros H.
  apply negb_true_iff in H. rewrite H. reflexivity.
Qed.

Lemma step_plain (st : dict) (t : SourceTerm) (e : event) (st' : dict)
      (h : jsstring -> list SourceTerm) :
  step st t = Return (e, st') -> no_regex t = true ->
  (forall K, own st K = None -> h K = []) ->
  (forall K, record_event K (h K) (t, e) =
             h K ++ (if keyed K t then [t] else [])) /\
  (forall K, own st' K = None -> record_event K (h K) (t, e) = []).
Proof.
  intros Hs Hr Hh. apply step_inv in Hs. unfold keyed, record_event. simpl.
  rewrite (no_regex_key t Hr).
  destruct Hs as [(Hk & -> & ->) | [(p & m0 & m' & He & Hp & Ho & _ & -> & ->)
                                   | (p & He & Hp & Ho & _ & -> & ->)]].
  - assert (He : eligible t = false) by (unfold eligible; rewrite Hk; reflexivity).
    rewrite He. simpl. split; intros K; [rewrite app_nil_r; reflexivity | auto].
  - rewrite He, Hp. simpl. split; intros K.
    + destruct (str_eqb p K); [reflexivity | rewrite app_nil_r; reflexivity].
    + rewrite own_put. destruct (str_eqb p K); [discriminate | auto].
  - assert (Ek : store_key t p = p).
    { unfold store_key. unfold no_regex in Hr. apply negb_true_iff in Hr.
      rewrite Hr. reflexivity. }
    rewrite He, Hp, Ek. simpl. split; intros K.
    + destruct (str_eqb p K) eqn:E; [|rewrite app_nil_r; reflexivity].
      apply str_eqb_eq in E; subst K. rewrite (Hh _ Ho). reflexivity.
    + rewrite own_put. destruct (str_eqb p K); [discriminate | auto].
Qed.

Lemma run_plain (input : list SourceTerm) :
  forall st evs st' (h : jsstring -> list SourceTerm),
  run st input = Return (evs, st') ->
  forallb no_regex input = true ->
  (forall K, own st K = None -> h K = []) ->
  forall K, fold_left (record_event K) (combine input evs) (h K) =
            h K ++ filter (keyed K) input.
Proof.
  induction input as [|t rest IH]; intros st evs st' h H Hr Hh K.
  - simpl in H. injection H as <- <-. simpl. rewrite app_nil_r. reflexivity.
  - apply run_cons in H. destruct H as (e & st1 & evs' & Hs & Hrun & ->).
    simpl in Hr. apply andb_true_iff in Hr. destruct Hr as [Ht Hrest].
    destruct (step_plain _ _ _ _ h Hs Ht Hh) as [E1 E2].
    simpl combine. simpl fold_left.
    rewrite (IH st1 evs' st' (fun K => record_event K (h K) (t, e)) Hrun Hrest E2 K).
    rewrite E1. simpl filter. destruct (keyed K t); simpl.
    + rewrite <- app_assoc. reflexivity.
    + rewrite app_nil_r. reflexivity.
Qed.

(** Without regular expressions the contributors of a record are the
    eligible terms of its key, in input order. *)
Lemma contributors_plain (input : list SourceTerm) (evs : list event) (st : dict)
      (K : jsstring) :
  run [] input = Return (evs, st) -> forallb no_regex input = true ->
  contributors K (combine input evs) = filter (keyed K) input.
Proof.
  intros H Hr.
  exact (run_plain input [] evs st (fun _ => []) H Hr (fun _ _ => eq_refl) K).
Qed.

(** ** The bookkeeping of source languages *)

Lemma field_equal (f g : option jsstring) :
  strict_equal (of_field f) (of_field g) = true <-> f = g.
Proof.
  destruct f as [a|], g as [b|]; simpl; try (split; congruence).
  rewrite str_eqb_eq. split; congruence.
Qed.

Lemma includes_array (L : list (option jsstring)) (g : option jsstring) :
  existsb (strict_equal (of_field g)) (map of_field L) = true <-> In g L.
Proof.
  rewrite existsb_exists. split.
  - intros (v & Hv & E). apply in_map_iff in Hv. destruct Hv as (f & <- & Hf).
    apply field_equal in E. subst; exact Hf.
  - intros H. exists (of_field g). split; [apply in_map; exact H|].
    apply field_equal; reflexivity.
Qed.

Lemma In_strings (s : jsstring) (l : list (option jsstring)) :
  In s (strings l) <-> In (Some s) l.
Proof.
  unfold strings. rewrite in_flat_map. split.
  - intros ([a|] & Hin & Hs); simpl in Hs; [|tauto].
    destruct Hs as [->|[]]. exact Hin.
  - intros H. exists (Some s). simpl. auto.
Qed.

Lemma strings_app (l1 l2 : list (option jsstring)) :
  strings (l1 ++ l2) = strings l1 ++ strings l2.
Proof. apply flat_map_app. Qed.

Lemma firstn_1_snoc {A : Type} (l : list A) (x : A) :
  l <> [] -> firstn 1 (l ++ [x]) = firstn 1 l.
Proof. destruct l; [congruence | reflexivity]. Qed.

Lemma not_bookkeeping (k : jsstring) :
  mem k bookkeeping = false ->
  str_eqb k (js "sourceLanguage") = false /\
  str_eqb k (js "sourceLanguages") = false /\
  str_eqb k (js "multipleSourceLanguages") = false.
Proof.
  unfold mem, bookkeeping.
  change (map js ["sourceLanguage"; "sourceLanguages"; "multipleSourceLanguages"]%string)
    with [js "sourceLanguage"; js "sourceLanguages"; js "multipleSourceLanguages"].
  cbn [existsb]. rewrite !orb_false_iff. tauto.
Qed.

(** An assignment to another name leaves the bookkeeping as it is. *)
Lemma tracked_set (m : object) (S : list (option jsstring)) (k : jsstring) (v : value) :
  mem k bookkeeping = false -> tracked m S -> tracked (set m k v) S.
Proof.
  intros Hk. apply not_bookkeeping in Hk. destruct Hk as (K1 & K2 & K3).
  intros [[H2 (f & H1 & Hf)] H3 Hs | [H1 (L & H2 & HL)] H3 Hd].
  - apply tracked_one; [split; [|exists f; split] | |]; trivial;
      rewrite own_set_other; assumption.
  - apply tracked_many; [split; [|exists L; split] | |]; trivial;
      rewrite own_set_other; assumption.
Qed.

Lemma tracked_create (t : SourceTerm) :
  language_code t = true -> tracked (oneTerm t) [sourceLanguage t].
Proof.
  intros Hl. unfold language_code in Hl. apply negb_true_iff in Hl.
  assert (T : tracked (set [] (js "sourceLanguage") (of_field (sourceLanguage t)))
                      [sourceLanguage t]).
  { apply tracked_one.
    - split; [reflexivity|]. exists (sourceLanguage t).
      split; [reflexivity|]. split; [left; reflexivity|].
      intros g [<-|[]]; reflexivity.
    - reflexivity.
    - destruct (sourceLanguage t); reflexivity. }
  unfold oneTerm. destruct (truthy (of_field (comment t))).
  - apply tracked_set; [reflexivity|]. apply tracked_set; assumption.
  - apply tracked_set; assumption.
Qed.

Lemma tracked_note (m : object) (S : list (option jsstring)) (t : SourceTerm)
      (m' : object) :
  tracked m S -> note_source_language m t = Return m' ->
  tracked m' (S ++ [sourceLanguage t]).
Proof.
  unfold note_source_language. generalize (sourceLanguage t) as g. intros g.
  intros [[H2 (f & H1 & Hin & Hf)] H3 Hs | [H1 (L & H2 & ND & Hi & Hc & Ho)] H3 Hd].
  - (* one source language so far *)
    rewrite (get_own _ _ _ H1).
    assert (HS : S <> []) by (intros ->; exact Hin).
    assert (Hfirst : strings (firstn 1 S) = strings [f]).
    { destruct S as [|f0 S']; [congruence|]. simpl.
      rewrite (Hf f0 (or_introl eq_refl)). reflexivity. }
    destruct (strict_equal (of_field f) (of_field g)) eqn:E.
    + apply field_equal in E. intros [= <-]. apply tracked_one.
      * split; [exact H2|]. exists f. split; [exact H1|].
        split; [apply in_app_iff; auto|].
        intros x Hx. apply in_app_iff in Hx. destruct Hx as [Hx|[<-|[]]]; auto.
      * exact H3.
      * rewrite firstn_1_snoc by exact HS. rewrite strings_app, <- E, Hfirst.
        rewrite Hfirst in Hs. clear Hfirst.
        destruct f as [a|].
        -- change (strings [Some a]) with [a] in *.
           rewrite first_seen_snoc, Hs. unfold add_new. simpl.
           rewrite str_eqb_refl. reflexivity.
        -- change (strings [@None jsstring]) with (@nil jsstring) in *.
           rewrite app_nil_r. exact Hs.
    + assert (Hne : f <> g).
      { intros ->. rewrite (proj2 (field_equal g g) eq_refl) in E. discriminate. }
      rewrite (get_absent _ _ H3). simpl truthy. cbv iota.
      unfold push.
      rewrite (get_own _ (js "sourceLanguages") (VArray [])) by
        (rewrite own_set; names; reflexivity).
      simpl bind.
      rewrite (get_own _ (js "sourceLanguage") (of_field f)) by
        (rewrite !own_set_other by reflexivity; exact H1).
      rewrite (get_own _ (js "sourceLanguages") (VArray ([] ++ [of_field f]))) by
        apply own_put_same.
      simpl bind. intros [= <-].
      apply tracked_many.
      * split.
        -- rewrite own_remove. names. reflexivity.
        -- exists [f; g]. split.
           { rewrite own_remove. names. apply own_put_same. }
           split.
           { constructor; [intros [->|[]]; congruence|].
             constructor; [intros []|constructor]. }
           split.
           { intros x [<-|[<-|[]]]; apply in_app_iff; simpl; auto. }
           split.
           { intros s Hx. apply in_app_iff in Hx. simpl.
             destruct Hx as [Hx|[<-|[]]]; [left; symmetry; auto | auto]. }
           rewrite strings_app. rewrite Hfirst in Hs. clear Hfirst.
           destruct g as [b|].
           ++ change (strings [Some b]) with [b].
              rewrite first_seen_snoc, Hs.
              destruct f as [a|]; unfold add_new; simpl; [|reflexivity].
              replace (str_eqb b a) with false; [reflexivity|].
              symmetry. apply str_eqb_neq. congruence.
           ++ change (strings [@None jsstring]) with (@nil jsstring).
              rewrite app_nil_r, Hs.
              destruct f as [a|]; [reflexivity | congruence].
      * rewrite own_remove. names. rewrite !own_put. names.
        rewrite own_set_other by reflexivity. rewrite own_set. names. reflexivity.
      * exists f, g. repeat split; [apply in_app_iff; auto | apply in_app_iff; simpl; auto | exact Hne].
  - (* several source languages already *)
    rewrite (get_absent _ _ H1).
    destruct g as [b|]; simpl strict_equal; cbv iota.
    + rewrite (get_own _ _ _ H3). simpl truthy. cbv iota.
      unfold includes, push. rewrite (get_own _ _ _ H2).
      pose proof (includes_array L (Some b)) as Hinc.
      destruct (existsb (strict_equal (of_field (Some b))) (map of_field L)) eqn:E;
        simpl; intros [= <-].
      * (* known *)
        assert (HL : In (Some b) L) by (apply Hinc; reflexivity).
        apply tracked_many; [|exact H3|].
        -- split; [exact H1|]. exists L. split; [exact H2|]. split; [exact ND|].
           split; [intros x Hx; apply in_app_iff; auto|].
           split.
           { intros s Hx. apply in_app_iff in Hx.
             destruct Hx as [Hx|[Hx|[]]]; [auto | congruence]. }
           rewrite strings_app. simpl. rewrite first_seen_snoc, <- Ho.
           unfold add_new.
           rewrite (proj2 (existsb_eqb str_eqb str_eqb_eq b (strings L)))
             by (apply In_strings; exact HL).
           reflexivity.
        -- destruct Hd as (x & y & Hx & Hy & Hxy).
           exists x, y. repeat split; try apply in_app_iff; auto.
      * (* new *)
        assert (HL : ~ In (Some b) L).
        { intros HL. apply Hinc in HL. congruence. }
        apply tracked_many.
        -- split; [rewrite own_put; names; exact H1|].
           exists (L ++ [Some b]). split.
           { rewrite own_put_same, map_app. reflexivity. }
           split.
           { apply NoDup_app; [exact ND | constructor; [intros []|constructor] |].
             intros x Hx [<-|[]]. exact (HL Hx). }
           split.
           { intros x Hx. apply in_app_iff in Hx. apply in_app_iff.
             destruct Hx as [Hx|Hx]; auto. }
           split.
           { intros s Hx. apply in_app_iff in Hx. apply in_app_iff.
             destruct Hx as [Hx|Hx]; auto. }
           rewrite !strings_app. simpl. rewrite first_seen_snoc, <- Ho.
           unfold add_new.
           destruct (existsb (str_eqb b) (strings L)) eqn:E'; [|reflexivity].
           apply (existsb_eqb str_eqb str_eqb_eq) in E'.
           apply In_strings in E'. contradiction.
        -- rewrite own_put. names. exact H3.
        -- destruct Hd as (x & y & Hx & Hy & Hxy).
           exists x, y. repeat split; try apply in_app_iff; auto.
    + (* an absent source language compares equal to the removed field *)
      intros [= <-]. apply tracked_many; [|exact H3|].
      * split; [exact H1|]. exists L. split; [exact H2|]. split; [exact ND|].
        split; [intros x Hx; apply in_app_iff; auto|].
        split.
        { intros s Hx. apply in_app_iff in Hx.
          destruct Hx as [Hx|[Hx|[]]]; [auto | congruence]. }
        rewrite strings_app. simpl. rewrite app_nil_r. exact Ho.
      * destruct Hd as (x & y & Hx & Hy & Hxy).
        exists x, y. repeat split; try apply in_app_iff; auto.
Qed.

Lemma tracked_merge (m : object) (S : list (option jsstring)) (t : SourceTerm)
      (m' : object) :
  language_code t = true -> tracked m S -> merge m t = Return m' ->
  tracked m' (S ++ [sourceLanguage t]).
Proof.
  intros Hl HT. unfold merge.
  destruct (note_source_language m t) as [m1| |] eqn:E; simpl; try discriminate.
  intros [= <-]. apply tracked_set.
  - unfold language_code in Hl. apply negb_true_iff in Hl. exact Hl.
  - exact (tracked_note _ _ _ _ HT E).
Qed.

Lemma built_tracked (cs : list SourceTerm) (m : object) :
  built cs m -> Forall (fun t => language_code t = true) cs ->
  tracked m (source_languages cs).
Proof.
  induction 1 as [t _|cs m t m' _ IH _ Hm]; intros Hl.
  - inversion Hl; subst. apply tracked_create; assumption.
  - apply Forall_app in Hl. destruct Hl as [Hcs Ht]. inversion Ht; subst.
    unfold source_languages. rewrite map_app.
    apply (tracked_merge m (source_languages cs) t m'); auto.
Qed.

Lemma tracked_flatten (K : jsstring) (m : object) (S : list (option jsstring)) :
  NoDup (keys m) -> tracked m S -> tracked (flatten K m) S.
Proof.
  intros ND [[H2 (f & H1 & Hf)] H3 Hs | [H1 (L & H2 & HL)] H3 Hd].
  - apply tracked_one; [split; [|exists f; split] | |]; trivial;
      rewrite own_flatten by (exact ND || reflexivity); assumption.
  - apply tracked_many; [split; [|exists L; split] | |]; trivial;
      rewrite own_flatten by (exact ND || reflexivity); assumption.
Qed.

Lemma tracked_shape (m : object) (S : list (option jsstring)) :
  tracked m S -> one_source m S \/ many_sources m S.
Proof. intros [H _ _|H _ _]; auto. Qed.

Lemma one_source_not_distinct (m : object) (S : list (option jsstring)) :
  one_source m S -> ~ distinct_sources S.
Proof.
  intros (_ & f & _ & _ & Hf) (x & y & Hx & Hy & Hxy).
  apply Hxy. rewrite (Hf x Hx), (Hf y Hy). reflexivity.
Qed.

(** Every record of a run, with the source languages of its contributors. *)
Lemma run_tracked (input : list SourceTerm) (evs : list event) (st : dict)
      (K : jsstring) (m : object) :
  run [] input = Return (evs, st) ->
  forallb language_code input = true ->
  own st K = Some m ->
  NoDup (keys m) /\
  tracked m (source_languages (contributors K (combine input evs))).
Proof.
  intros H Hl Hm. pose proof (run_contributors _ _ _ _ _ H Hm) as B.
  split; [exact (built_NoDup _ _ B)|].
  apply built_tracked; [exact B|]. apply contributors_all; exact Hl.
Qed.

(** ** The order of the output *)

Lemma trace_run (input : list SourceTerm) (evs : list event) (st : dict) :
  run [] input = Return (evs, st) -> trace input = evs.
Proof. unfold trace. intros ->. reflexivity. Qed.

Lemma run_stored_keys (input : list SourceTerm) (evs : list event) (st : dict) :
  run [] input = Return (evs, st) ->
  keys st = first_seen str_eqb (stored_keys input).
Proof.
  intros H. unfold stored_keys. rewrite (trace_run _ _ _ H).
  exact (run_keys _ _ _ _ H).
Qed.

Lemma combine_keys {V : Type} (o : props V) : combine (keys o) (map snd o) = o.
Proof.
  induction o as [|[k v] r IH]; simpl; [reflexivity | f_equal; exact IH].
Qed.

(** The entries of the final mapping are built from their contributors. *)
Lemma run_entries (input : list SourceTerm) (evs : list event) (st : dict)
      (K : jsstring) (m : object) :
  run [] input = Return (evs, st) -> In (K, m) st ->
  built (contributors K (combine input evs)) m.
Proof.
  intros H Hin. apply (run_contributors _ _ _ _ _ H).
  apply In_own; [|exact Hin].
  rewrite (run_stored_keys _ _ _ H). apply NoDup_first_seen. exact str_eqb_eq.
Qed.

(** The bookkeeping does not touch the other fields of a record. *)
Lemma note_other (m : object) (t : SourceTerm) (m' : object) (k : jsstring) :
  mem k bookkeeping = false ->
  note_source_language m t = Return m' -> own m' k = own m k.
Proof.
  intros Hk. apply not_bookkeeping in Hk. destruct Hk as (K1 & K2 & K3).
  rewrite str_eqb_sym in K1. rewrite str_eqb_sym in K2. rewrite str_eqb_sym in K3.
  assert (P : forall o x o', push o x = Return o' -> own o' k = own o k).
  { intros o x o'. unfold push.
    destruct (get o (js "sourceLanguages")); try discriminate.
    intros E. apply Return_inj in E. subst o'.
    rewrite own_put, K2. reflexivity. }
  unfold note_source_language.
  destruct (strict_equal _ _); [intros [= <-]; reflexivity|].
  destruct (truthy _).
  - destruct (includes m (sourceLanguage t)) as [[|]| |]; simpl; try discriminate.
    + intros [= <-]; reflexivity.
    + apply P.
  - match goal with
    | |- context [push ?m2 ?x] =>
        destruct (push m2 x) as [m3| |] eqn:P3; cbn [bind]; try discriminate
    end.
    destruct (push m3 _) as [m4| |] eqn:P4; cbn [bind]; try discriminate.
    intros E. apply Return_inj in E. subst m'.
    rewrite own_remove, K1, (P _ _ _ P4), (P _ _ _ P3).
    rewrite !own_set_other by assumption. reflexivity.
Qed.

Lemma merge_other (m : object) (t : SourceTerm) (m' : object) (k : jsstring) :
  mem k bookkeeping = false -> merge m t = Return m' ->
  own m' k =
  if str_eqb (property_key (language t)) (js "__proto__") then own m k
  else if str_eqb (property_key (language t)) k then Some (of_field (text t))
       else own m k.
Proof.
  intros Hk. unfold merge.
  destruct (note_source_language m t) as [m1| |] eqn:E; simpl; try discriminate.
  intros [= <-]. rewrite own_set, (note_other _ _ _ _ Hk E). reflexivity.
Qed.

Lemma create_other (t : SourceTerm) (k : jsstring) :
  str_eqb (js "sourceLanguage") k = false ->
  str_eqb (js "comment") k = false ->
  own (oneTerm t) k =
  if str_eqb (property_key (language t)) (js "__proto__") then None
  else if str_eqb (property_key (language t)) k then Some (of_field (text t))
       else None.
Proof.
  intros K1 K2.
  assert (E : own (set (set [] (js "sourceLanguage") (of_field (sourceLanguage t)))
                       (property_key (language t)) (of_field (text t))) k =
              if str_eqb (property_key (language t)) (js "__proto__") then None
              else if str_eqb (property_key (language t)) k
                   then Some (of_field (text t)) else None).
  { rewrite own_set, own_set_other by exact K1. reflexivity. }
  unfold oneTerm. destruct (truthy (of_field (comment t))); [|exact E].
  rewrite own_set_other by exact K2. exact E.
Qed.

Lemma built_no_pattern (cs : list SourceTerm) (m : object) :
  built cs m ->
  Forall (fun t => language_not (js "pattern") t = true) cs ->
  own m (js "pattern") = None.
Proof.
  induction 1 as [t _|cs m t m' _ IH _ Hm]; intros Hl.
  - inversion Hl as [|? ? Ht _]; subst. apply negb_true_iff in Ht.
    rewrite create_other by reflexivity. rewrite Ht.
    destruct (str_eqb _ (js "__proto__")); reflexivity.
  - apply Forall_app in Hl. destruct Hl as [Hcs Ht].
    inversion Ht as [|? ? Ht' _]; subst. apply negb_true_iff in Ht'.
    rewrite (merge_other _ _ _ (js "pattern") eq_refl Hm), Ht', (IH Hcs).
    destruct (str_eqb _ (js "__proto__")); reflexivity.
Qed.


(** ** Numeric and short patterns *)

Lemma convert_app (l1 l2 : list SourceTerm) :
  VnrToYagtFormat (l1 ++ l2) =
  r1 <- run [] l1 ;; r2 <- run (snd r1) l2 ;; Return (to_array (snd r2)).
Proof.
  unfold VnrToYagtFormat. rewrite run_app.
  destruct (run [] l1) as [[evs1 st1]| |]; simpl; try reflexivity.
  destruct (run st1 l2) as [[evs2 st2]| |]; reflexivity.
Qed.

Lemma skip_numeric_or_short (t : SourceTerm) (p : jsstring) (a : Attributes) :
  pattern t = Some p ->
  purely_numeric p = true \/ (List.length p <= 1)%nat ->
  attrs t = Some a -> skip t = Return true.
Proof.
  intros Hp Hc Ha. rewrite (skip_attrs t a Ha), Hp. f_equal.
  destruct Hc as [Hn|Hs].
  - rewrite (digits_not_NaN p Hn). simpl. rewrite orb_true_r. apply orb_true_r.
  - replace (Nat.ltb 1 (List.length p)) with false.
    + simpl. rewrite orb_true_r. apply orb_true_r.
    + symmetry. apply Nat.ltb_ge. exact Hs.
Qed.

(** C9.  A term whose pattern is purely numeric, or has at most one code
    unit, is passed over whatever its other fields are: the iteration
    leaves [tempFormat.terms] as it was, and the conversion of an input
    with the term is the conversion of the input without it (when the
    term has no attribute object the conversion throws, and there is no
    output at all). *)
Theorem numeric_or_short_pattern_excluded
        (t : SourceTerm) (p : jsstring) (l1 l2 : list SourceTerm) :
  pattern t = Some p ->
  purely_numeric p = true \/ (List.length p <= 1)%nat ->
  (forall st, step st t = Return (Skipped, st) \/ step st t = Throw TypeError) /\
  (attrs t <> None ->
   VnrToYagtFormat (l1 ++ t :: l2) = VnrToYagtFormat (l1 ++ l2)) /\
  (forall out, VnrToYagtFormat (l1 ++ t :: l2) = Return out ->
               VnrToYagtFormat (l1 ++ l2) = Return out).
Proof.
  intros Hp Hc.
  assert (S1 : forall st a, attrs t = Some a -> step st t = Return (Skipped, st)).
  { intros st a Ha. unfold step.
    rewrite (skip_numeric_or_short t p a Hp Hc Ha). reflexivity. }
  assert (S2 : forall st, attrs t = None -> step st t = Throw TypeError).
  { intros st Ha. unfold step. rewrite (skip_no_attrs t Ha). reflexivity. }
  assert (E : forall a, attrs t = Some a ->
              VnrToYagtFormat (l1 ++ t :: l2) = VnrToYagtFormat (l1 ++ l2)).
  { intros a Ha. rewrite !convert_app.
    destruct (run [] l1) as [[evs1 st1]| |]; simpl; try reflexivity.
    rewrite (S1 st1 a Ha). simpl.
    destruct (run st1 l2) as [[evs2 st2]| |]; reflexivity. }
  split; [|split].
  - intros st. destruct (attrs t) as [a|] eqn:Ha; [left; eauto | right; auto].
  - destruct (attrs t) as [a|] eqn:Ha; [intros _; exact (E a eq_refl) | congruence].
  - intros out. destruct (attrs t) as [a|] eqn:Ha.
    + rewrite (E a eq_refl). auto.
    + rewrite convert_app.
      destruct (run [] l1) as [[evs1 st1]| |]; simpl; try discriminate.
      rewrite (S2 st1 eq_refl). discriminate.
Qed.


(** ** Comments *)


(** ** The claims that fail on the code *)

(** X10.  Neither the source language nor the type of a term takes part
    in the filter: two terms with attribute objects and the same text and
    pattern are both passed over or both kept (the negations of lines 151
    and 152 apply to the field, not to the comparison). *)
Lemma filter_ignores_source_language_and_type (t t' : SourceTerm) :
  attrs t <> None -> attrs t' <> None ->
  text t' = text t -> pattern t' = pattern t -> skip t' = skip t.
Proof.
  intros Ha Ha' Ht Hp.
  destruct (attrs t) as [a|] eqn:Ea; [|congruence].
  destruct (attrs t') as [a'|] eqn:Ea'; [|congruence].
  rewrite (skip_attrs t a Ea), (skip_attrs t' a' Ea'), Ht, Hp. reflexivity.
Qed.

(** C1.  A term whose source language is [en], and a term whose type is
    [name], both otherwise well formed, are converted like any other: each
    yields an output term. *)
Theorem other_source_language_or_type_kept :
  VnrToYagtFormat [plain_term "en" "zh" "hi" "hello"] =
  Return [[field "pattern" "hello"; field "sourceLanguage" "en"; field "zh" "hi"]] /\
  VnrToYagtFormat [name_term "ja" "en" "hi" "hello"] =
  Return [[field "pattern" "hello"; field "sourceLanguage" "ja"; field "en" "hi"]].
Proof. split; vm_compute; reflexivity. Qed.

(** C2.  Two regular-expression terms with the same pattern: the record
    is looked up under [foo] (line 159) but stored under [/foo/] (line
    191), so the second term does not find the record of the first and
    replaces it; the translation [en] of the first term is lost. *)
Theorem second_regex_term_replaces_first :
  VnrToYagtFormat [regex_term "ja" "en" "a" "foo"; regex_term "ja" "fr" "b" "foo"] =
  Return [[field "pattern" "/foo/"; field "sourceLanguage" "ja"; field "fr" "b"]] /\
  trace [regex_term "ja" "en" "a" "foo"; regex_term "ja" "fr" "b" "foo"] =
  [Created (js "/foo/"); Created (js "/foo/")].
Proof. split; vm_compute; reflexivity. Qed.

(** C3.  A plain term followed by a regular-expression term with the
    same pattern text: the second finds the record of the first under
    [foo] and is merged into it, so the output has one term and none with
    the pattern [/foo/].  In the other order the output has two terms. *)
Theorem regex_term_merged_into_plain_term :
  VnrToYagtFormat [plain_term "ja" "en" "a" "foo"; regex_term "ja" "fr" "b" "foo"] =
  Return [[field "pattern" "foo"; field "sourceLanguage" "ja";
           field "en" "a"; field "fr" "b"]] /\
  VnrToYagtFormat [regex_term "ja" "fr" "b" "foo"; plain_term "ja" "en" "a" "foo"] =
  Return [[field "pattern" "/foo/"; field "sourceLanguage" "ja"; field "fr" "b"];
          [field "pattern" "foo"; field "sourceLanguage" "ja"; field "en" "a"]].
Proof. split; vm_compute; reflexivity. Qed.

(** C4.  With the input of C3 and the language [en] in both terms, the
    output term [foo] holds the text of the regular-expression term,
    which is not a term of the key [foo], and the key [/foo/] has no
    output term; with two regular-expression terms of one pattern, the
    language of the first is missing from the output term. *)
Theorem language_fields_with_regex_terms :
  (let input := [plain_term "ja" "en" "plain" "foo";
                 regex_term "ja" "en" "regex" "foo"] in
   VnrToYagtFormat input =
   Return [[field "pattern" "foo"; field "sourceLanguage" "ja"; field "en" "regex"]] /\
   last_text (js "foo") (js "en") input = Some (VString (js "plain")) /\
   last_text (js "/foo/") (js "en") input = Some (VString (js "regex"))) /\
  (let input := [regex_term "ja" "en" "a" "foo"; regex_term "ja" "fr" "b" "foo"] in
   exists o, VnrToYagtFormat input = Return [o] /\
             last_text (js "/foo/") (js "en") input = Some (VString (js "a")) /\
             own o (js "en") = None).
Proof.
  split.
  - repeat split; vm_compute; reflexivity.
  - eexists. split; [vm_compute; reflexivity|]. split; vm_compute; reflexivity.
Qed.


(** C6.  A record without attribute object is not passed over: reading
    [type] from the missing [$] (line 152) throws a [TypeError], and the
    whole conversion ends without output, also for the terms before. *)
Theorem record_without_attributes_throws :
  VnrToYagtFormat [bare_term "ja" "en" "hi" "hello"] = Throw TypeError /\
  VnrToYagtFormat [plain_term "ja" "en" "a" "foo"; bare_term "ja" "en" "hi" "hello"] =
  Throw TypeError.
Proof. split; vm_compute; reflexivity. Qed.


(** ** The theorems at sample inputs *)

Lemma two_sources_run :
  run [] two_sources = Return (two_sources_trace, two_sources_terms).
Proof. vm_compute. reflexivity. Defined.

Lemma numeric_or_short_pattern_excluded_witness :
  pattern numeric_term = Some (js "42") /\
  (purely_numeric (js "42") = true \/ (List.length (js "42") <= 1)%nat) /\
  (forall st, step st numeric_term = Return (Skipped, st) \/
              step st numeric_term = Throw TypeError) /\
  (attrs numeric_term <> None ->
   VnrToYagtFormat ([plain_term "ja" "en" "hi" "hello"] ++ numeric_term ::
                    [plain_term "ja" "fr" "salut" "hello"]) =
   VnrToYagtFormat ([plain_term "ja" "en" "hi" "hello"] ++
                    [plain_term "ja" "fr" "salut" "hello"])) /\
  (forall out,
      VnrToYagtFormat ([plain_term "ja" "en" "hi" "hello"] ++ numeric_term ::
                       [plain_term "ja" "fr" "salut" "hello"]) = Return out ->
      VnrToYagtFormat ([plain_term "ja" "en" "hi" "hello"] ++
                       [plain_term "ja" "fr" "salut" "hello"]) = Return out).
Proof.
  split; [reflexivity|]. split; [left; reflexivity|].
  apply (numeric_or_short_pattern_excluded numeric_term (js "42"));
    [reflexivity | left; reflexivity].
Defined.

(** ** Language fields *)

Lemma find_in_filter {A : Type} (f g : A -> bool) (l : list A) :
  find g (filter f l) = find (fun x => f x && g x) l.
Proof.
  induction l as [|x l IH]; simpl; [reflexivity|].
  destruct (f x); simpl; [|exact IH].
  destruct (g x); [reflexivity | exact IH].
Qed.

Lemma rev_filter {A : Type} (f : A -> bool) (l : list A) :
  rev (filter f l) = filter f (rev l).
Proof.
  induction l as [|x l IH]; simpl; [reflexivity|].
  rewrite filter_app. simpl. destruct (f x); simpl.
  - rewrite IH. reflexivity.
  - rewrite app_nil_r. exact IH.
Qed.

(** The field a record has for a language is the text of the last of its
    contributors with that language. *)
Lemma built_language (cs : list SourceTerm) (m : object) (L : jsstring) :
  built cs m ->
  mem L bookkeeping = false ->
  str_eqb (js "comment") L = false ->
  str_eqb L (js "__proto__") = false ->
  own m L =
  option_map (fun t => of_field (text t))
             (find (fun t => str_eqb (property_key (language t)) L) (rev cs)).
Proof.
  intros B HL HC HP.
  assert (Hs : str_eqb (js "sourceLanguage") L = false).
  { apply not_bookkeeping in HL. destruct HL as (K1 & _).
    rewrite str_eqb_sym. exact K1. }
  assert (Hcase : forall t (x : option value),
             (if str_eqb (property_key (language t)) (js "__proto__") then x
              else if str_eqb (property_key (language t)) L
                   then Some (of_field (text t)) else x) =
             if str_eqb (property_key (language t)) L
             then Some (of_field (text t)) else x).
  { intros t x. destruct (str_eqb (property_key (language t)) L) eqn:E.
    - apply str_eqb_eq in E. rewrite E, HP. reflexivity.
    - destruct (str_eqb (property_key (language t)) (js "__proto__")); reflexivity. }
  induction B as [t _|cs m t m' _ IH _ Hm].
  - rewrite (create_other t L Hs HC), Hcase.
    change (rev [t]) with [t]. cbn [find].
    destruct (str_eqb (property_key (language t)) L); reflexivity.
  - rewrite (merge_other _ _ _ L HL Hm), Hcase, IH.
    rewrite rev_app_distr. change (rev [t]) with [t]. cbn [app find].
    destruct (str_eqb (property_key (language t)) L); reflexivity.
Qed.

(** Without regular expressions, the flattened record of a key has, for
    a language that is not a name the record uses itself, the text of the
    last eligible term of that key with that language. *)
Lemma record_last_write
      (input : list SourceTerm) (evs : list event) (st : dict)
      (K : jsstring) (m : object) (L : jsstring) :
  run [] input = Return (evs, st) ->
  forallb no_regex input = true ->
  own st K = Some m ->
  mem L bookkeeping = false ->
  str_eqb (js "comment") L = false ->
  str_eqb L (js "__proto__") = false ->
  str_eqb (js "pattern") L = false ->
  own (flatten K m) L = last_text K L input.
Proof.
  intros H Hr Hm HL HC HP HT.
  pose proof (run_contributors _ _ _ _ _ H Hm) as B.
  rewrite own_flatten by (exact (built_NoDup _ _ B) || exact HT).
  rewrite (built_language _ _ L B HL HC HP).
  rewrite (contributors_plain _ _ _ K H Hr), rev_filter, find_in_filter.
  reflexivity.
Qed.

(** ** Normal completion *)

Lemma note_returns (m : object) (S : list (option jsstring)) (t : SourceTerm) :
  tracked m S -> exists m', note_source_language m t = Return m'.
Proof.
  intros [[H2 (f & H1 & _)] H3 _ | [H1 (L & H2 & _)] H3 _];
    unfold note_source_language.
  - destruct (strict_equal _ _); [eexists; reflexivity|].
    rewrite (get_absent _ _ H3). simpl truthy. cbv iota.
    unfold push.
    rewrite (get_own _ (js "sourceLanguages") (VArray [])) by
      (rewrite own_set; names; reflexivity).
    cbn [bind].
    rewrite (get_own _ (js "sourceLanguages") (VArray ([] ++ [get
      (set (set m (js "multipleSourceLanguages") (VBool true))
           (js "sourceLanguages") (VArray [])) (js "sourceLanguage")]))) by
      apply own_put_same.
    cbn [bind]. eexists; reflexivity.
  - destruct (strict_equal _ _); [eexists; reflexivity|].
    rewrite (get_own _ _ _ H3). simpl truthy. cbv iota.
    unfold includes, push. rewrite (get_own _ _ _ H2). cbn [bind].
    destruct (negb _); eexists; reflexivity.
Qed.

Lemma merge_returns (m : object) (S : list (option jsstring)) (t : SourceTerm) :
  tracked m S -> exists m', merge m t = Return m'.
Proof.
  intros T. destruct (note_returns m S t T) as (m1 & E).
  unfold merge. rewrite E. eexists; reflexivity.
Qed.

(** A term that gets through the loop: its element has attributes, its
    pattern is not a name inherited from [Object.prototype], and its
    language is not a name of the bookkeeping. *)
Lemma run_returns (input : list SourceTerm) :
  forall st,
  (forall K m, own st K = Some m -> exists S, tracked m S) ->
  Forall (fun t => attrs t <> None /\
                   mem (property_key (pattern t)) Object_prototype = false /\
                   language_code t = true) input ->
  exists evs st', run st input = Return (evs, st').
Proof.
  induction input as [|t rest IH]; intros st Hst Hin.
  - eexists _, _; reflexivity.
  - inversion Hin as [|? ? (Ha & Hp & Hl) Hrest]; subst.
    assert (Hstep : exists e st1, step st t = Return (e, st1) /\
                    forall K m, own st1 K = Some m -> exists S, tracked m S).
    { unfold step. destruct (attrs t) as [a|] eqn:Ea; [|congruence].
      rewrite (skip_attrs t a Ea). cbn [bind].
      match goal with |- context [if ?b then _ else _] => destruct b eqn:Es end.
      - eexists _, _; split; [reflexivity | exact Hst].
      - unfold lookup. destruct (own st (property_key (pattern t))) as [m|] eqn:Eo.
        + destruct (Hst _ _ Eo) as (S & T).
          destruct (merge_returns m S t T) as (m' & Em).
          rewrite Em. cbn [bind]. eexists _, _; split; [reflexivity|].
          intros K m0. rewrite own_put.
          destruct (str_eqb _ K); [|apply Hst].
          intros [= <-]. exists (S ++ [sourceLanguage t]).
          exact (tracked_merge _ _ _ _ Hl T Em).
        + rewrite Hp. eexists _, _; split; [reflexivity|].
          intros K m0. rewrite own_put.
          destruct (str_eqb _ K); [|apply Hst].
          intros [= <-]. exists [sourceLanguage t].
          exact (tracked_create _ Hl). }
    destruct Hstep as (e & st1 & Es & Hst1).
    destruct (IH st1 Hst1 Hrest) as (evs & st' & Er).
    exists (e :: evs), st'. simpl. rewrite Es. cbn [bind snd]. rewrite Er.
    reflexivity.
Qed.

(** X8.  The conversion returns, without exception, on every input whose
    terms all have an attribute object, a pattern that is not a name
    inherited from [Object.prototype], and a language that is not a name
    of the bookkeeping. *)
Lemma conversion_returns (input : list SourceTerm) :
  Forall (fun t => attrs t <> None /\
                   mem (property_key (pattern t)) Object_prototype = false /\
                   language_code t = true) input ->
  exists out, VnrToYagtFormat input = Return out.
Proof.
  intros H. destruct (run_returns input [] (fun _ _ E => ltac:(discriminate)) H)
    as (evs & st & E).
  unfold VnrToYagtFormat. rewrite E. eexists; reflexivity.
Qed.

(** The state reached after a prefix of the input is the state of the run
    on that prefix. *)
Lemma run_prefix (l1 l2 : list SourceTerm) (evs : list event) (st : dict) :
  run [] (l1 ++ l2) = Return (evs, st) ->
  exists evs1 st1 evs2, run [] l1 = Return (evs1, st1) /\
                        run st1 l2 = Return (evs2, st) /\ evs = evs1 ++ evs2.
Proof.
  rewrite run_app.
  destruct (run [] l1) as [[evs1 st1]| |]; cbn [bind snd fst]; try discriminate.
  destruct (run st1 l2) as [[evs2 st2]| |] eqn:E2; cbn [bind snd fst]; try discriminate.
  intros E. apply Return_inj in E. injection E as <- <-.
  exists evs1, st1, evs2. auto.
Qed.

(** ** Patterns that name no inherited member

    On an input none of whose patterns names a member of
    [Object.prototype] the loop only ever finds its own records, and the
    run is followed to its end. *)

Lemma skip_not_builtin (t : SourceTerm) (k : jsstring) : skip t <> Builtin k.
Proof.
  unfold skip.
  repeat match goal with
         | |- context [if ?b then _ else _] => destruct b
         | |- context [match ?x with _ => _ end] => destruct x
         end; discriminate.
Qed.

Lemma merge_not_builtin (m : object) (t : SourceTerm) (k : jsstring) :
  merge m t <> Builtin k.
Proof.
  unfold merge, note_source_language, includes, push.
  repeat match goal with
         | |- context [if ?b then _ else _] => destruct b
         | |- context [match ?x with _ => _ end] => destruct x; cbn [bind]
         end; discriminate.
Qed.

(** A pattern that is no inherited name finds a record of the mapping or
    nothing. *)
Lemma own_pattern_lookup (st : dict) (t : SourceTerm) :
  own_pattern t = true -> lookup st (property_key (pattern t)) <> Inherited.
Proof.
  unfold own_pattern, lookup. intros H. apply negb_true_iff in H. rewrite H.
  destruct (own st (property_key (pattern t))); discriminate.
Qed.

Lemma step_not_builtin (st : dict) (t : SourceTerm) (k : jsstring) :
  own_pattern t = true -> step st t <> Builtin k.
Proof.
  intros H. unfold step. pose proof (skip_not_builtin t) as Hs.
  destruct (skip t) as [[|]| |k']; cbn [bind]; try discriminate.
  - pose proof (own_pattern_lookup st t H) as Hl.
    destruct (lookup st (property_key (pattern t))) as [m| |]; try congruence.
    pose proof (merge_not_builtin m t) as Hm.
    destruct (merge m t) as [m'| |k']; cbn [bind]; try discriminate.
    destruct (Hm k' eq_refl).
  - destruct (Hs k' eq_refl).
Qed.

Lemma run_not_builtin (input : list SourceTerm) :
  forallb own_pattern input = true ->
  forall st k, run st input <> Builtin k.
Proof.
  induction input as [|t rest IH]; intros H st k; [discriminate|].
  simpl in H. apply andb_true_iff in H. destruct H as [Ht Hrest].
  cbn [run]. pose proof (step_not_builtin st t) as Hs.
  destruct (step st t) as [[e st1]| |k']; cbn [bind snd fst]; try discriminate.
  - pose proof (IH Hrest st1) as Hr.
    destruct (run st1 rest) as [[evs st2]| |k']; cbn [bind]; try discriminate.
    destruct (Hr k' eq_refl).
  - destruct (Hs k' Ht eq_refl).
Qed.

(** On such an input the conversion returns or throws: the cut of the
    model is not reached. *)
Lemma conversion_not_builtin (input : list SourceTerm) (k : jsstring) :
  forallb own_pattern input = true -> VnrToYagtFormat input <> Builtin k.
Proof.
  intros H. unfold VnrToYagtFormat. pose proof (run_not_builtin input H [] ) as Hr.
  destruct (run [] input) as [[evs st]| |k']; cbn [bind]; try discriminate.
  destruct (Hr k' eq_refl).
Qed.


(* ================================================================== *)
(** * The command line *)

Lemma is_prefix_app (p r : jsstring) : is_prefix p (p ++ r) = true.
Proof.
  induction p as [|c p IH]; simpl; [reflexivity|].
  rewrite N.eqb_refl. exact IH.
Qed.

Lemma is_prefix_split (p s : jsstring) :
  is_prefix p s = true -> exists r, s = p ++ r.
Proof.
  revert s; induction p as [|c p IH]; intros s H.
  - exists s. reflexivity.
  - destruct s as [|d s]; simpl in H; [discriminate|].
    apply andb_true_iff in H. destruct H as [E H]. apply N.eqb_eq in E. subst d.
    destruct (IH s H) as (r & ->). exists r. reflexivity.
Qed.

Lemma endsWith_split (s p : jsstring) :
  endsWith s p = true <-> exists stem, s = stem ++ p.
Proof.
  unfold endsWith. split.
  - intros H. apply is_prefix_split in H. destruct H as (r & H).
    exists (rev r). rewrite <- (rev_involutive s), H, rev_app_distr, rev_involutive.
    reflexivity.
  - intros (stem & ->). rewrite rev_app_distr. apply is_prefix_app.
Qed.

Lemma Continue_inj {A : Type} (a b : A) : Continue a = Continue b -> a = b.
Proof. congruence. Qed.

(** The loop over the indices is the reading along the list. *)
Lemma parse_at_one (pre : list jsstring) (a : jsstring) (rest : list jsstring)
      (options : Options) :
  parse_at (pre ++ a :: rest) options (List.length pre) =
  parse_one a (hd_error rest) options.
Proof.
  unfold parse_at, parse_one.
  assert (E0 : nth_error (pre ++ a :: rest) (List.length pre) = Some a).
  { rewrite nth_error_app2 by lia. rewrite Nat.sub_diag. reflexivity. }
  assert (E1 : nth_error (pre ++ a :: rest) (List.length pre + 1) = hd_error rest).
  { rewrite nth_error_app2 by lia.
    replace (List.length pre + 1 - List.length pre) with 1 by lia.
    destruct rest; reflexivity. }
  assert (E2 : Nat.leb (List.length pre + 2) (List.length (pre ++ a :: rest)) =
               match hd_error rest with Some _ => true | None => false end).
  { rewrite length_app. simpl. destruct rest as [|b rest]; simpl.
    - apply Nat.leb_gt. lia.
    - apply Nat.leb_le. lia. }
  rewrite E0, E1, E2. reflexivity.
Qed.

Lemma parse_loop_scan (l : list jsstring) :
  forall pre options,
  fold_left (parse_at (pre ++ l)) (seq (List.length pre) (List.length l)) options =
  scan l options.
Proof.
  induction l as [|a rest IH]; intros pre options; [reflexivity|].
  simpl. rewrite parse_at_one.
  specialize (IH (pre ++ [a]) (parse_one a (hd_error rest) options)).
  rewrite <- app_assoc, length_app in IH. simpl in IH.
  rewrite Nat.add_1_r in IH. exact IH.
Qed.

Lemma parseArgs_scan (args : list jsstring) :
  parseArgs args =
  if help_requested args then Exit 0 printHelp
  else Continue (scan args (mkOptions None None)).
Proof.
  unfold parseArgs. destruct (help_requested args); [reflexivity|].
  f_equal. exact (parse_loop_scan args [] (mkOptions None None)).
Qed.

Lemma scan_app (l1 l2 : list jsstring) :
  forall options, exists options', scan (l1 ++ l2) options = scan l2 options'.
Proof.
  induction l1 as [|a rest IH]; intros options; simpl.
  - exists options. reflexivity.
  - apply IH.
Qed.

Lemma source_parse_one (a : jsstring) (next : option jsstring) (options : Options) :
  source (parse_one a next options) =
  if str_eqb a (js "-s") && match next with Some _ => true | None => false end
  then next
  else if startsWith a (js "--source=") then Some (substring 9 a)
       else source options.
Proof.
  unfold parse_one.
  destruct (str_eqb a (js "-s") && _); destruct (startsWith a (js "--source="));
    destruct (str_eqb a (js "-o") && _); destruct (startsWith a (js "--output="));
    reflexivity.
Qed.

Lemma output_parse_one (a : jsstring) (next : option jsstring) (options : Options) :
  output (parse_one a next options) =
  if str_eqb a (js "-o") && match next with Some _ => true | None => false end
  then next
  else if startsWith a (js "--output=") then Some (substring 9 a)
       else output options.
Proof.
  unfold parse_one.
  destruct (str_eqb a (js "-s") && _); destruct (startsWith a (js "--source="));
    destruct (str_eqb a (js "-o") && _); destruct (startsWith a (js "--output="));
    reflexivity.
Qed.

Lemma scan_keeps_source (l : list jsstring) :
  forall options, no_source_option l = true ->
                  source (scan l options) = source options.
Proof.
  induction l as [|a rest IH]; intros options H; [reflexivity|].
  simpl in H. apply andb_true_iff in H. destruct H as [Ha Hrest].
  simpl. rewrite (IH _ Hrest), source_parse_one.
  unfold sets_source in Ha. apply negb_true_iff, orb_false_iff in Ha.
  destruct Ha as [-> ->]. reflexivity.
Qed.

Lemma scan_keeps_output (l : list jsstring) :
  forall options, no_output_option l = true ->
                  output (scan l options) = output options.
Proof.
  induction l as [|a rest IH]; intros options H; [reflexivity|].
  simpl in H. apply andb_true_iff in H. destruct H as [Ha Hrest].
  simpl. rewrite (IH _ Hrest), output_parse_one.
  unfold sets_output in Ha. apply negb_true_iff, orb_false_iff in Ha.
  destruct Ha as [-> ->]. reflexivity.
Qed.

(** X1.  The last source option wins, long form: when [--source=x] is
    followed by no argument that sets the source, the source is [x],
    whatever stands before. *)
Theorem last_long_source_wins
        (pre post : list jsstring) (x : jsstring) (options : Options) :
  no_source_option post = true ->
  parseArgs (pre ++ (js "--source=" ++ x) :: post) = Continue options ->
  source options = Some x.
Proof.
  intros Hpost H. rewrite parseArgs_scan in H.
  destruct (help_requested _); [discriminate|].
  apply Continue_inj in H. subst options.
  destruct (scan_app pre ((js "--source=" ++ x) :: post) (mkOptions None None))
    as (o' & ->).
  simpl scan. rewrite (scan_keeps_source _ _ Hpost), source_parse_one.
  reflexivity.
Qed.

(** X2.  The last source option wins, short form: [-s v] followed by no
    argument that sets the source gives the source [v], provided [v] is
    not read as such an argument itself. *)
Theorem last_short_source_wins
        (pre post : list jsstring) (v : jsstring) (options : Options) :
  no_source_option (v :: post) = true ->
  parseArgs (pre ++ js "-s" :: v :: post) = Continue options ->
  source options = Some v.
Proof.
  intros Hpost H. rewrite parseArgs_scan in H.
  destruct (help_requested _); [discriminate|].
  apply Continue_inj in H. subst options.
  destruct (scan_app pre (js "-s" :: v :: post) (mkOptions None None))
    as (o' & ->).
  change (scan (js "-s" :: v :: post) o')
    with (scan (v :: post) (parse_one (js "-s") (Some v) o')).
  rewrite (scan_keeps_source _ _ Hpost), source_parse_one. reflexivity.
Qed.

(** X3.  Without an argument that sets the source ([-s] as the last
    argument sets nothing), the process prints the help page when line 23
    asks for it, and otherwise the error about the missing source and the
    help page; it exits with status 0 either way. *)
Theorem missing_source_reported (args : list jsstring) :
  no_source_option args = true ->
  main_options args =
  if help_requested args then Exit 0 printHelp
  else Exit 0 ((stderr, js "ERROR: need to specify source file path") :: printHelp).
Proof.
  intros H. unfold main_options. rewrite parseArgs_scan.
  destruct (help_requested args); [reflexivity|].
  simpl and_then. unfold checkOptions.
  rewrite (scan_keeps_source _ _ H). reflexivity.
Qed.

(** X4.  When the options pass the checks, the source path ends in
    [.xml] and the output path ends in [.json]. *)
Theorem accepted_paths (args : list jsstring) (options : Options) :
  main_options args = Continue options ->
  (exists stem, source options = Some (stem ++ js ".xml")) /\
  (exists stem, output options = Some (stem ++ js ".json")).
Proof.
  unfold main_options. destruct (parseArgs args) as [o|]; [|discriminate].
  simpl. unfold checkOptions, printPromptAndHelpAndExit.
  destruct (source o) as [[|c s]|]; try discriminate.
  destruct (endsWith (c :: s) (js ".xml")) eqn:Ex; [|discriminate]. cbn [negb].
  match goal with
  | |- context [endsWith ?o (js ".json")] =>
      destruct (endsWith o (js ".json")) eqn:Ej; [|discriminate];
      cbn [negb]; intros [= <-]; cbn [source output];
      apply endsWith_split in Ex; apply endsWith_split in Ej;
      destruct Ex as (s1 & ->); destruct Ej as (s2 & ->); eauto
  end.
Qed.

(** X5.  When the options pass the checks and no argument sets the
    output ([-o] as the last argument sets nothing), the output path is
    [shareddict.json]. *)
Theorem default_output_path (args : list jsstring) (options : Options) :
  no_output_option args = true ->
  main_options args = Continue options ->
  output options = Some DEFAULT_OUTPUT_PATH.
Proof.
  intros H. unfold main_options. rewrite parseArgs_scan.
  destruct (help_requested args); [discriminate|].
  simpl and_then. unfold checkOptions, printPromptAndHelpAndExit.
  rewrite (scan_keeps_output _ _ H). cbn [output].
  destruct (source _) as [[|c s]|]; try discriminate.
  destruct (negb (endsWith (c :: s) (js ".xml"))); [discriminate|].
  destruct (negb (endsWith DEFAULT_OUTPUT_PATH (js ".json"))); [discriminate|].
  intros [= <-]. reflexivity.
Qed.

(** X6.  Every way the option handling ends the process has the exit
    status 0, and writes the help page last: alone, or after one of three
    error lines on the standard error stream. *)
Theorem option_handling_exits (args : list jsstring) (status : N)
        (console : list line) :
  main_options args = Exit status console ->
  status = 0%N /\
  (console = printHelp \/
   exists prompt,
     In prompt [js "need to specify source file path";
                js "source file needs to be a XML file";
                js "output file needs to be a JSON file"] /\
     console = (stderr, js "ERROR: " ++ prompt) :: printHelp).
Proof.
  unfold main_options, parseArgs.
  destruct (help_requested args).
  - simpl. intros [= <- <-]. auto.
  - simpl and_then. unfold checkOptions, printPromptAndHelpAndExit.
    match goal with |- context [source ?o] => generalize o end. intros o.
    destruct (source o) as [[|c s]|].
    + intros [= <- <-]. split; [reflexivity|]. right. eexists. split; [|reflexivity].
      left; reflexivity.
    + destruct (negb (endsWith (c :: s) (js ".xml"))).
      * intros [= <- <-]. split; [reflexivity|]. right. eexists.
        split; [|reflexivity]. right; left; reflexivity.
      * match goal with
        | |- context [negb (endsWith ?p (js ".json"))] =>
            destruct (negb (endsWith p (js ".json")))
        end; [|discriminate].
        intros [= <- <-]. split; [reflexivity|]. right. eexists.
        split; [|reflexivity]. right; right; left; reflexivity.
    + intros [= <- <-]. split; [reflexivity|]. right. eexists. split; [|reflexivity].
      left; reflexivity.
Qed.

(* ================================================================== *)
(** * More on the Term Mapper *)




(** ** A term given twice *)

Lemma replace_id {V : Type} (o : props V) (k : jsstring) (v : V) :
  own o k = Some v -> replace o k v = o.
Proof.
  induction o as [|[k0 v0] r IH]; simpl; [reflexivity|].
  destruct (str_eqb k0 k); [intros [= ->]; reflexivity|].
  intros H. rewrite (IH H). reflexivity.
Qed.

Lemma put_same {V : Type} (o : props V) (k : jsstring) (v : V) :
  own o k = Some v -> put o k v = o.
Proof.
  intros H. unfold put, has_own. rewrite H. apply replace_id; exact H.
Qed.

Lemma set_twice (o : object) (k : jsstring) (v : value) :
  set (set o k v) k v = set o k v.
Proof.
  unfold set. destruct (str_eqb k (js "__proto__")); [reflexivity|].
  apply put_same, own_put_same.
Qed.

Lemma strict_equal_field (g : option jsstring) :
  strict_equal (of_field g) (of_field g) = true.
Proof. apply field_equal; reflexivity. Qed.

Lemma settled_nothing_to_do (m : object) (t : SourceTerm) :
  settled m t -> note_source_language m t = Return m.
Proof.
  unfold note_source_language. intros [E|(E & F & I)]; rewrite E; [reflexivity|].
  rewrite F, I. reflexivity.
Qed.

Lemma get_put (o : object) (k : jsstring) (v : value) (k' : jsstring) :
  get (put o k v) k' = if str_eqb k k' then v else get o k'.
Proof. unfold get. rewrite own_put. destruct (str_eqb k k'); reflexivity. Qed.

Lemma get_remove (o : object) (k k' : jsstring) :
  get (remove o k) k' = if str_eqb k k' then VUndefined else get o k'.
Proof. unfold get. rewrite own_remove. destruct (str_eqb k k'); reflexivity. Qed.

Lemma get_set_other (o : object) (k : jsstring) (v : value) (k' : jsstring) :
  str_eqb k k' = false -> get (set o k v) k' = get o k'.
Proof. intros H. unfold get. rewrite (own_set_other _ _ _ _ H). reflexivity. Qed.

Lemma push_result (m : object) (x : value) (m' : object) :
  push m x = Return m' ->
  exists l, get m (js "sourceLanguages") = VArray l /\
            m' = put m (js "sourceLanguages") (VArray (l ++ [x])).
Proof.
  unfold push. destruct (get m (js "sourceLanguages")) as [| | |l];
    try discriminate.
  intros E. apply Return_inj in E. exists l. auto.
Qed.

(** Once the source language of a term is noted in a record, there is
    nothing more to note. *)
Lemma note_settles (m : object) (t : SourceTerm) (m1 : object) :
  note_source_language m t = Return m1 -> settled m1 t.
Proof.
  unfold note_source_language.
  destruct (strict_equal (get m (js "sourceLanguage")) (of_field (sourceLanguage t)))
    eqn:E.
  - intros H. apply Return_inj in H. subst m1. left; exact E.
  - destruct (truthy (get m (js "multipleSourceLanguages"))) eqn:F.
    + destruct (includes m (sourceLanguage t)) as [[|]| |] eqn:I;
        cbn [bind negb]; try discriminate.
      * intros H. apply Return_inj in H. subst m1. right; auto.
      * intros H. apply push_result in H. destruct H as (l & Hl & ->).
        right. rewrite !get_put. names. split; [exact E|]. split; [exact F|].
        unfold includes. rewrite get_put. names.
        rewrite existsb_app. cbn [existsb].
        rewrite strict_equal_field, orb_true_r. reflexivity.
    + destruct (push _ _) as [m3| |] eqn:P3; cbn [bind]; try discriminate.
      destruct (push m3 _) as [m4| |] eqn:P4; cbn [bind]; try discriminate.
      intros H. apply Return_inj in H. subst m1.
      apply push_result in P3. destruct P3 as (l3 & _ & ->).
      apply push_result in P4. destruct P4 as (l4 & _ & ->).
      unfold settled, includes.
      destruct (sourceLanguage t) as [b|].
      * right.
        rewrite !get_remove. names. rewrite !get_put. names.
        rewrite get_set_other by reflexivity.
        unfold set at 1. names. rewrite get_put. names.
        split; [reflexivity|]. split; [reflexivity|].
        rewrite existsb_app. cbn [existsb].
        rewrite (strict_equal_field (Some b)), orb_true_r. reflexivity.
      * left. rewrite get_remove. names. reflexivity.
Qed.

Lemma settled_set (m : object) (t : SourceTerm) (k : jsstring) (v : value) :
  mem k bookkeeping = false -> settled m t -> settled (set m k v) t.
Proof.
  intros Hk. apply not_bookkeeping in Hk. destruct Hk as (K1 & K2 & K3).
  unfold settled, includes.
  rewrite !get_set_other by assumption. auto.
Qed.

Lemma language_code_name (t : SourceTerm) :
  language_code t = true -> mem (property_key (language t)) bookkeeping = false.
Proof. unfold language_code. apply negb_true_iff. Qed.

(** Merging a term a second time changes nothing. *)
Lemma merge_twice (m : object) (t : SourceTerm) (m' : object) :
  language_code t = true -> merge m t = Return m' -> merge m' t = Return m'.
Proof.
  intros Hl. apply language_code_name in Hl. unfold merge.
  destruct (note_source_language m t) as [m1| |] eqn:E; cbn [bind]; try discriminate.
  intros H. apply Return_inj in H. subst m'.
  rewrite (settled_nothing_to_do _ t (settled_set _ _ _ _ Hl (note_settles _ _ _ E))).
  cbn [bind]. rewrite set_twice. reflexivity.
Qed.

(** Merging a term into the record it has just created changes nothing. *)
Lemma merge_into_own_record (t : SourceTerm) :
  language_code t = true -> language_not (js "comment") t = true ->
  merge (oneTerm t) t = Return (oneTerm t).
Proof.
  intros Hl Hc. apply language_code_name in Hl.
  pose proof (not_bookkeeping _ Hl) as (K1 & _ & _).
  unfold language_not in Hc. apply negb_true_iff in Hc.
  assert (S : settled (oneTerm t) t).
  { left. unfold oneTerm. destruct (truthy (of_field (comment t)));
      rewrite ?(get_set_other _ (js "comment")) by reflexivity;
      rewrite (get_set_other _ _ _ _ K1);
      (erewrite get_own; [apply strict_equal_field | rewrite own_set; names; reflexivity]). }
  unfold merge. rewrite (settled_nothing_to_do _ _ S). cbn [bind]. f_equal.
  unfold set at 1. destruct (str_eqb (property_key (language t)) (js "__proto__")) eqn:P;
    [reflexivity|].
  apply put_same. unfold oneTerm. destruct (truthy (of_field (comment t))).
  - rewrite own_set_other by (rewrite str_eqb_sym; exact Hc).
    rewrite own_set, P, str_eqb_refl. reflexivity.
  - rewrite own_set, P, str_eqb_refl. reflexivity.
Qed.

Lemma slashes_differ (p : jsstring) : str_eqb (js "/" ++ p ++ js "/") p = false.
Proof.
  apply str_eqb_neq. intros E. apply (f_equal (@List.length codeunit)) in E.
  rewrite !length_app in E. simpl in E. lia.
Qed.

Lemma step_twice (st : dict) (t : SourceTerm) (e : event) (st1 : dict) :
  language_code t = true -> language_not (js "comment") t = true ->
  step st t = Return (e, st1) -> exists e', step st1 t = Return (e', st1).
Proof.
  intros Hl Hc H. pose proof H as H0. apply step_inv in H.
  destruct H as [(_ & -> & ->) | [(p & m0 & m' & He & Hp & Ho & Hm & -> & ->)
                                 | (p & He & Hp & Ho & Hi & -> & ->)]].
  - exists Skipped. exact H0.
  - exists (Merged p). unfold step. apply eligible_skip in He. rewrite He.
    cbn [bind]. rewrite Hp. cbn [property_key to_string]. unfold lookup.
    rewrite own_put_same, (merge_twice _ _ _ Hl Hm). cbn [bind].
    rewrite (put_same _ _ _ (own_put_same _ _ _)). reflexivity.
  - unfold step. apply eligible_skip in He. rewrite He.
    cbn [bind]. rewrite Hp. cbn [property_key to_string]. unfold lookup.
    rewrite own_put. unfold store_key.
    destruct (strict_equal (of_field (regex t)) (VString (js "true"))).
    + rewrite slashes_differ, Ho, Hi. eexists.
      rewrite (put_same _ _ _ (own_put_same _ _ _)). reflexivity.
    + rewrite str_eqb_refl, (merge_into_own_record t Hl Hc). cbn [bind].
      eexists. rewrite (put_same _ _ _ (own_put_same _ _ _)). reflexivity.
Qed.

(** X12.  In an input none of whose patterns names a member of
    [Object.prototype], a term that stands twice in a row counts once:
    the conversion returns or throws, and it does with the second
    occurrence what it does without it.  The term is one whose
    [language] names neither a bookkeeping field nor [comment]. *)
Theorem repeated_term_counts_once (t : SourceTerm) (l1 l2 : list SourceTerm) :
  forallb own_pattern (l1 ++ t :: l2) = true ->
  language_code t = true -> language_not (js "comment") t = true ->
  VnrToYagtFormat (l1 ++ t :: t :: l2) = VnrToYagtFormat (l1 ++ t :: l2) /\
  forall k, VnrToYagtFormat (l1 ++ t :: l2) <> Builtin k.
Proof.
  intros Ho Hl Hc. split; [|intros k; exact (conversion_not_builtin _ k Ho)].
  rewrite !convert_app.
  destruct (run [] l1) as [[evs1 st1]| |]; cbn [bind snd]; try reflexivity.
  cbn [run]. destruct (step st1 t) as [[e st2]| |] eqn:E; cbn [bind snd fst];
    try reflexivity.
  destruct (step_twice _ _ _ _ Hl Hc E) as (e' & ->). cbn [bind snd fst].
  destruct (run st2 l2) as [[evs2 st3]| |]; reflexivity.
Qed.

(** ** The order and the size of the output *)

Lemma patterns_of_output (input : list SourceTerm) (evs : list event) (st : dict) :
  run [] input = Return (evs, st) ->
  forallb (language_not (js "pattern")) input = true ->
  map pattern_of (to_array st) = map VString (keys st).
Proof.
  intros H Hl. unfold to_array, keys. rewrite !map_map.
  apply map_ext_in. intros [K m] Hin. unfold pattern_of. cbn [fst snd].
  pose proof (run_entries _ _ _ _ _ H Hin) as B.
  apply get_own. apply own_flatten_pattern; [exact (built_NoDup _ _ B)|].
  apply (built_no_pattern _ _ B). apply contributors_all. exact Hl.
Qed.

Lemma add_new_extends {A : Type} (eqb : A -> A -> bool) (l : list A) :
  forall acc, exists more, fold_left (add_new eqb) l acc = acc ++ more.
Proof.
  induction l as [|x l IH]; intros acc; simpl.
  - exists []. rewrite app_nil_r. reflexivity.
  - destruct (IH (add_new eqb acc x)) as (more & ->).
    unfold add_new. destruct (existsb (eqb x) acc).
    + exists more. reflexivity.
    + exists (x :: more). rewrite <- app_assoc. reflexivity.
Qed.

Lemma add_new_length {A : Type} (eqb : A -> A -> bool) (l : list A) :
  forall acc,
  (List.length (fold_left (add_new eqb) l acc) <= List.length acc + List.length l)%nat.
Proof.
  induction l as [|x l IH]; intros acc; simpl; [lia|].
  specialize (IH (add_new eqb acc x)).
  assert (List.length (add_new eqb acc x) <= S (List.length acc))%nat.
  { unfold add_new. destruct (existsb (eqb x) acc); [lia|].
    rewrite length_app. simpl. lia. }
  lia.
Qed.

(** X13.  In an input none of whose patterns names a member of
    [Object.prototype], terms added at the end leave the output terms of
    the input before them in place: the patterns of the output of a
    prefix are the first patterns of the output of the whole, in the same
    order.  No term has [pattern] as its language. *)
Theorem appended_terms_keep_order (l1 l2 : list SourceTerm) (out : list object) :
  forallb own_pattern (l1 ++ l2) = true ->
  forallb (language_not (js "pattern")) (l1 ++ l2) = true ->
  VnrToYagtFormat (l1 ++ l2) = Return out ->
  exists out1 more,
    VnrToYagtFormat l1 = Return out1 /\
    map pattern_of out = map pattern_of out1 ++ more.
Proof.
  intros _ Hl H. apply convert_run in H. destruct H as (evs & st & H & ->).
  destruct (run_prefix _ _ _ _ H) as (evs1 & st1 & evs2 & H1 & H2 & _).
  exists (to_array st1).
  destruct (add_new_extends str_eqb (created evs2) (keys st1)) as (more & Hm).
  exists (map VString more). split.
  - unfold VnrToYagtFormat. rewrite H1. reflexivity.
  - rewrite (patterns_of_output _ _ _ H Hl).
    rewrite forallb_app in Hl. apply andb_true_iff in Hl.
    rewrite (patterns_of_output _ _ _ H1 (proj1 Hl)).
    rewrite (run_keys _ _ _ _ H2), Hm, map_app. reflexivity.
Qed.

Lemma created_bound (input : list SourceTerm) :
  forall st evs st', run st input = Return (evs, st') ->
  (List.length (created evs) <= List.length (filter eligible input))%nat.
Proof.
  induction input as [|t rest IH]; intros st evs st' H.
  - simpl in H. injection H as <- <-. simpl. lia.
  - apply run_cons in H. destruct H as (e & st1 & evs' & Hs & Hr & ->).
    specialize (IH _ _ _ Hr).
    replace (created (e :: evs')) with (created [e] ++ created evs')
      by (destruct e; reflexivity).
    rewrite length_app. cbn [filter]. apply step_inv in Hs.
    destruct Hs as [(_ & -> & _) | [(p & m & m' & _ & _ & _ & _ & -> & _)
                                   | (p & He & _ & _ & _ & -> & _)]];
      cbn [created flat_map app List.length].
    + destruct (eligible t); simpl; lia.
    + destruct (eligible t); simpl; lia.
    + rewrite He. simpl. lia.
Qed.

Lemma filter_length {A : Type} (f : A -> bool) (l : list A) :
  (List.length (filter f l) <= List.length l)%nat.
Proof.
  induction l as [|x l IH]; simpl; [lia|]. destruct (f x); simpl; lia.
Qed.

(** X14.  On an input none of whose patterns names a member of
    [Object.prototype], the output never has more terms than the input
    has eligible terms. *)
Theorem output_size_bound (input : list SourceTerm) (out : list object) :
  forallb own_pattern input = true ->
  VnrToYagtFormat input = Return out ->
  (List.length out <= List.length (filter eligible input) <= List.length input)%nat.
Proof.
  intros _ H. apply convert_run in H. destruct H as (evs & st & H & ->).
  split; [|apply filter_length].
  unfold to_array. rewrite length_map.
  replace (List.length st) with (List.length (keys st))
    by (unfold keys; apply length_map).
  rewrite (run_keys _ _ _ _ H).
  pose proof (add_new_length str_eqb (created evs) (@nil jsstring)) as B.
  pose proof (created_bound _ _ _ _ H). simpl in B. cbn [keys map]. lia.
Qed.

Lemma step_keys_plain (st : dict) (t : SourceTerm) (e : event) (st' : dict) :
  step st t = Return (e, st') -> no_regex t = true ->
  keys st' =
  fold_left (add_new str_eqb) (map effective_key (filter eligible [t])) (keys st).
Proof.
  intros H Hr. rewrite (step_keys _ _ _ _ H). apply step_inv in H.
  cbn [filter].
  destruct H as [(Hk & -> & _) | [(p & m & m' & He & Hp & Ho & _ & -> & _)
                                 | (p & He & Hp & _ & _ & -> & _)]].
  - assert (He : eligible t = false) by (unfold eligible; rewrite Hk; reflexivity).
    rewrite He. reflexivity.
  - rewrite He. cbn [created flat_map map fold_left].
    rewrite (no_regex_key t Hr), Hp. cbn [property_key to_string].
    unfold add_new. rewrite <- has_own_keys. unfold has_own. rewrite Ho.
    reflexivity.
  - rewrite He. cbn [created flat_map map app].
    unfold effective_key. rewrite Hp. reflexivity.
Qed.

Lemma run_keys_plain (input : list SourceTerm) :
  forall st evs st', run st input = Return (evs, st') ->
  forallb no_regex input = true ->
  keys st' =
  fold_left (add_new str_eqb) (map effective_key (filter eligible input)) (keys st).
Proof.
  induction input as [|t rest IH]; intros st evs st' H Hr.
  - simpl in H. injection H as <- <-. reflexivity.
  - apply run_cons in H. destruct H as (e & st1 & evs' & Hs & Hrun & ->).
    simpl in Hr. apply andb_true_iff in Hr. destruct Hr as [Ht Hrest].
    rewrite (IH _ _ _ Hrun Hrest), (step_keys_plain _ _ _ _ Hs Ht).
    cbn [filter]. destruct (eligible t); reflexivity.
Qed.

(** X15.  In an input without regular-expression terms and none of
    whose patterns names a member of [Object.prototype], the output has
    one term for each distinct pattern of an eligible term, in the order
    in which those patterns first appear in the input.  No term has
    [pattern] as its language. *)
Theorem first_appearance_order_without_regex
        (input : list SourceTerm) (out : list object) :
  forallb own_pattern input = true ->
  forallb no_regex input = true ->
  forallb (language_not (js "pattern")) input = true ->
  VnrToYagtFormat input = Return out ->
  map pattern_of out =
  map VString (first_seen str_eqb (map effective_key (filter eligible input))).
Proof.
  intros _ Hr Hl H. apply convert_run in H. destruct H as (evs & st & H & ->).
  rewrite (patterns_of_output _ _ _ H Hl), (run_keys_plain _ _ _ _ H Hr).
  reflexivity.
Qed.

(* ================================================================== *)
(** * The theorems at sample inputs *)

Lemma last_long_source_wins_witness :
  no_source_option [js "-o"; js "out.json"] = true /\
  parseArgs ((node_script ++ [js "-s"; js "a.xml"]) ++
             (js "--source=" ++ js "b.xml") :: [js "-o"; js "out.json"]) =
  Continue (mkOptions (Some (js "b.xml")) (Some (js "out.json"))) /\
  source (mkOptions (Some (js "b.xml")) (Some (js "out.json"))) = Some (js "b.xml").
Proof.
  assert (E : parseArgs ((node_script ++ [js "-s"; js "a.xml"]) ++
                         (js "--source=" ++ js "b.xml") :: [js "-o"; js "out.json"]) =
              Continue (mkOptions (Some (js "b.xml")) (Some (js "out.json"))))
    by (vm_compute; reflexivity).
  split; [reflexivity|]. split; [exact E|].
  exact (last_long_source_wins (node_script ++ [js "-s"; js "a.xml"])
                               [js "-o"; js "out.json"] (js "b.xml") _ eq_refl E).
Defined.

Lemma last_short_source_wins_witness :
  no_source_option [js "b.xml"; js "-s"] = true /\
  parseArgs ((node_script ++ [js "--source=a.xml"]) ++
             js "-s" :: js "b.xml" :: [js "-s"]) =
  Continue (mkOptions (Some (js "b.xml")) None) /\
  source (mkOptions (Some (js "b.xml")) None) = Some (js "b.xml").
Proof.
  assert (E : parseArgs ((node_script ++ [js "--source=a.xml"]) ++
                         js "-s" :: js "b.xml" :: [js "-s"]) =
              Continue (mkOptions (Some (js "b.xml")) None))
    by (vm_compute; reflexivity).
  split; [reflexivity|]. split; [exact E|].
  exact (last_short_source_wins (node_script ++ [js "--source=a.xml"])
                                [js "-s"] (js "b.xml") _ eq_refl E).
Defined.

Lemma missing_source_reported_witness :
  no_source_option (node_script ++ [js "-o"; js "out.json"; js "-s"]) = true /\
  main_options (node_script ++ [js "-o"; js "out.json"; js "-s"]) =
  Exit 0 ((stderr, js "ERROR: need to specify source file path") :: printHelp).
Proof.
  split; [reflexivity|].
  exact (missing_source_reported
           (node_script ++ [js "-o"; js "out.json"; js "-s"]) eq_refl).
Defined.

Lemma accepted_paths_witness :
  main_options (node_script ++ [js "-s"; js "gamedic.xml"; js "--output=yagt.json"]) =
  Continue (mkOptions (Some (js "gamedic.xml")) (Some (js "yagt.json"))) /\
  (exists stem, source (mkOptions (Some (js "gamedic.xml")) (Some (js "yagt.json")))
                = Some (stem ++ js ".xml")) /\
  (exists stem, output (mkOptions (Some (js "gamedic.xml")) (Some (js "yagt.json")))
                = Some (stem ++ js ".json")).
Proof.
  assert (E : main_options
                (node_script ++ [js "-s"; js "gamedic.xml"; js "--output=yagt.json"]) =
              Continue (mkOptions (Some (js "gamedic.xml")) (Some (js "yagt.json"))))
    by (vm_compute; reflexivity).
  split; [exact E|]. exact (accepted_paths _ _ E).
Defined.

Lemma default_output_path_witness :
  no_output_option (node_script ++ [js "-s"; js "gamedic.xml"; js "-o"]) = true /\
  main_options (node_script ++ [js "-s"; js "gamedic.xml"; js "-o"]) =
  Continue (mkOptions (Some (js "gamedic.xml")) (Some DEFAULT_OUTPUT_PATH)) /\
  output (mkOptions (Some (js "gamedic.xml")) (Some DEFAULT_OUTPUT_PATH)) =
  Some DEFAULT_OUTPUT_PATH.
Proof.
  assert (E : main_options (node_script ++ [js "-s"; js "gamedic.xml"; js "-o"]) =
              Continue (mkOptions (Some (js "gamedic.xml")) (Some DEFAULT_OUTPUT_PATH)))
    by (vm_compute; reflexivity).
  split; [reflexivity|]. split; [exact E|].
  exact (default_output_path (node_script ++ [js "-s"; js "gamedic.xml"; js "-o"])
                             _ eq_refl E).
Defined.

Lemma option_handling_exits_witness :
  main_options (node_script ++ [js "--source=dict.txt"]) =
  Exit 0 ((stderr, js "ERROR: source file needs to be a XML file") :: printHelp) /\
  0%N = 0%N /\
  ((stderr, js "ERROR: source file needs to be a XML file") :: printHelp = printHelp \/
   exists prompt,
     In prompt [js "need to specify source file path";
                js "source file needs to be a XML file";
                js "output file needs to be a JSON file"] /\
     (stderr, js "ERROR: source file needs to be a XML file") :: printHelp =
     (stderr, js "ERROR: " ++ prompt) :: printHelp).
Proof.
  assert (E : main_options (node_script ++ [js "--source=dict.txt"]) =
              Exit 0 ((stderr, js "ERROR: source file needs to be a XML file")
                        :: printHelp))
    by (vm_compute; reflexivity).
  split; [exact E|]. exact (option_handling_exits _ _ _ E).
Defined.


Lemma conversion_returns_witness :
  Forall (fun t => attrs t <> None /\
                   mem (property_key (pattern t)) Object_prototype = false /\
                   language_code t = true) two_sources /\
  exists out, VnrToYagtFormat two_sources = Return out.
Proof.
  assert (F : Forall (fun t => attrs t <> None /\
                               mem (property_key (pattern t)) Object_prototype = false /\
                               language_code t = true) two_sources).
  { repeat constructor; discriminate. }
  split; [exact F|]. exact (conversion_returns two_sources F).
Defined.


Lemma filter_ignores_source_language_and_type_witness :
  attrs (plain_term "ja" "en" "hi" "hello") <> None /\
  attrs (name_term "en" "zh" "hi" "hello") <> None /\
  text (name_term "en" "zh" "hi" "hello") = text (plain_term "ja" "en" "hi" "hello") /\
  pattern (name_term "en" "zh" "hi" "hello") =
  pattern (plain_term "ja" "en" "hi" "hello") /\
  skip (name_term "en" "zh" "hi" "hello") = skip (plain_term "ja" "en" "hi" "hello").
Proof.
  assert (A : attrs (plain_term "ja" "en" "hi" "hello") <> None) by discriminate.
  assert (A' : attrs (name_term "en" "zh" "hi" "hello") <> None) by discriminate.
  split; [exact A|]. split; [exact A'|]. split; [reflexivity|].
  split; [reflexivity|].
  exact (filter_ignores_source_language_and_type _ _ A A' eq_refl eq_refl).
Defined.

Lemma repeated_term_counts_once_witness :
  forallb own_pattern ([plain_term "ja" "en" "hi" "hello"] ++
                       plain_term "zh" "en" "hey" "hello" :: []) = true /\
  language_code (plain_term "zh" "en" "hey" "hello") = true /\
  language_not (js "comment") (plain_term "zh" "en" "hey" "hello") = true /\
  VnrToYagtFormat ([plain_term "ja" "en" "hi" "hello"] ++
                   plain_term "zh" "en" "hey" "hello" ::
                   plain_term "zh" "en" "hey" "hello" :: []) =
  VnrToYagtFormat ([plain_term "ja" "en" "hi" "hello"] ++
                   plain_term "zh" "en" "hey" "hello" :: []) /\
  forall k, VnrToYagtFormat ([plain_term "ja" "en" "hi" "hello"] ++
                             plain_term "zh" "en" "hey" "hello" :: [])
            <> Builtin k.
Proof.
  split; [reflexivity|]. split; [reflexivity|]. split; [reflexivity|].
  exact (repeated_term_counts_once (plain_term "zh" "en" "hey" "hello")
                                   [plain_term "ja" "en" "hi" "hello"] []
                                   eq_refl eq_refl eq_refl).
Defined.

Lemma appended_terms_keep_order_witness :
  forallb own_pattern (firstn 2 two_sources ++ skipn 2 two_sources) = true /\
  forallb (language_not (js "pattern"))
          (firstn 2 two_sources ++ skipn 2 two_sources) = true /\
  VnrToYagtFormat (firstn 2 two_sources ++ skipn 2 two_sources) =
  Return two_sources_output /\
  exists out1 more,
    VnrToYagtFormat (firstn 2 two_sources) = Return out1 /\
    map pattern_of two_sources_output = map pattern_of out1 ++ more.
Proof.
  assert (E : VnrToYagtFormat (firstn 2 two_sources ++ skipn 2 two_sources) =
              Return two_sources_output) by (vm_compute; reflexivity).
  split; [reflexivity|]. split; [reflexivity|]. split; [exact E|].
  exact (appended_terms_keep_order (firstn 2 two_sources) (skipn 2 two_sources)
                                   two_sources_output eq_refl eq_refl E).
Defined.

Lemma output_size_bound_witness :
  forallb own_pattern two_sources = true /\
  VnrToYagtFormat two_sources = Return two_sources_output /\
  (List.length two_sources_output <= List.length (filter eligible two_sources)
   <= List.length two_sources)%nat.
Proof.
  assert (E : VnrToYagtFormat two_sources = Return two_sources_output)
    by (vm_compute; reflexivity).
  split; [reflexivity|]. split; [exact E|].
  exact (output_size_bound two_sources two_sources_output eq_refl E).
Defined.

Lemma first_appearance_order_without_regex_witness :
  forallb own_pattern two_sources = true /\
  forallb no_regex two_sources = true /\
  forallb (language_not (js "pattern")) two_sources = true /\
  VnrToYagtFormat two_sources = Return two_sources_output /\
  map pattern_of two_sources_output =
  map VString (first_seen str_eqb (map effective_key (filter eligible two_sources))).
Proof.
  assert (E : VnrToYagtFormat two_sources = Return two_sources_output)
    by (vm_compute; reflexivity).
  split; [reflexivity|]. split; [reflexivity|]. split; [reflexivity|].
  split; [exact E|].
  exact (first_appearance_order_without_regex two_sources two_sources_output
                                              eq_refl eq_refl eq_refl E).
Defined.

(* ================================================================== *)
(** * Results on the returned array

    The theorems of this part speak of the array the conversion returns,
    on inputs none of whose patterns names a member of
    [Object.prototype]: there the loop only ever finds its own records,
    and the run is followed to its end. *)

(** The returned array, term by term along the names of the mapping. *)
Lemma Forall2_records (P : jsstring -> object -> Prop) (st : dict) :
  (forall K m, In (K, m) st -> P K (flatten K m)) ->
  Forall2 P (keys st) (to_array st).
Proof.
  induction st as [|[K m] rest IH]; intros H; [constructor|].
  cbn [keys to_array map fst snd]. constructor.
  - apply H. left. reflexivity.
  - apply IH. intros K' m' Hin. apply H. right. exact Hin.
Qed.

Lemma conversion_records (input : list SourceTerm) (out : list object) :
  VnrToYagtFormat input = Return out ->
  exists evs st,
    run [] input = Return (evs, st) /\ out = to_array st /\
    evs = trace input /\
    keys st = first_seen str_eqb (stored_keys input) /\
    forall K m, In (K, m) st -> own st K = Some m.
Proof.
  intros H. apply convert_run in H. destruct H as (evs & st & H & ->).
  exists evs, st. split; [exact H|]. split; [reflexivity|].
  split; [symmetry; exact (trace_run _ _ _ H)|].
  pose proof (run_stored_keys _ _ _ H) as Hk. split; [exact Hk|].
  intros K m Hin. apply In_own; [|exact Hin].
  rewrite Hk. apply NoDup_first_seen. exact str_eqb_eq.
Qed.

(** Without regular expressions the names of the mapping are the keys of
    the eligible terms, in the order of their first appearance. *)
Lemma plain_keys (input : list SourceTerm) (evs : list event) (st : dict) :
  run [] input = Return (evs, st) -> forallb no_regex input = true ->
  keys st = first_seen str_eqb (map effective_key (filter eligible input)).
Proof. intros H Hr. exact (run_keys_plain _ _ _ _ H Hr). Qed.

Lemma tracked_source_shape (m : object) (S : list (option jsstring)) :
  tracked m S -> source_shape m S.
Proof.
  intros [H1 _ _ | H1 _ D].
  - left. split; [exact H1|]. intros D. exact (one_source_not_distinct _ _ H1 D).
  - right. split; assumption.
Qed.

(** The flag set in a record stays when a term is merged into it. *)
Lemma merge_keeps_flag (m : object) (t : SourceTerm) (m' : object) :
  own m (js "multipleSourceLanguages") = Some (VBool true) ->
  language_code t = true -> merge m t = Return m' ->
  own m' (js "multipleSourceLanguages") = Some (VBool true).
Proof.
  intros Hf Hl. apply language_code_name in Hl.
  pose proof (not_bookkeeping _ Hl) as (_ & _ & K3).
  unfold merge.
  destruct (note_source_language m t) as [m1| |] eqn:E; cbn [bind]; try discriminate.
  intros H. apply Return_inj in H. subst m'. rewrite (own_set_other _ _ _ _ K3).
  unfold note_source_language in E.
  destruct (strict_equal (get m (js "sourceLanguage")) (of_field (sourceLanguage t))).
  - apply Return_inj in E. subst m1. exact Hf.
  - rewrite (get_own _ _ _ Hf) in E. simpl truthy in E. cbv iota in E.
    destruct (includes m (sourceLanguage t)) as [[|]| |]; cbn [bind negb] in E;
      try discriminate.
    + apply Return_inj in E. subst m1. exact Hf.
    + apply push_result in E. destruct E as (l & _ & ->).
      rewrite own_put. names. exact Hf.
Qed.


(** X17.  On an input none of whose patterns names a member of
    [Object.prototype] and whose languages are language codes, every term
    of the array returned has either the field [sourceLanguage] or the
    field [sourceLanguages], never both, and which of the two is decided
    by the terms that contributed to its record (the term that created it
    and the terms merged into it since).  When these all have one source
    language, the term has [sourceLanguage] with that value and no
    [sourceLanguages]; when two of them differ, it has no
    [sourceLanguage], and [sourceLanguages] is an array without
    duplicates of source languages of those terms, holding every source
    language (a string) among them in the order they were first seen.  In
    an input without regular-expression terms the contributors of a
    record are the eligible terms of its key, and the keys are those of
    the eligible terms in the order of their first appearance. *)
Theorem source_language_fields (input : list SourceTerm) (out : list object) :
  forallb own_pattern input = true ->
  forallb language_code input = true ->
  VnrToYagtFormat input = Return out ->
  Forall2 (fun K o =>
             source_shape o (source_languages
                               (contributors K (combine input (trace input)))))
          (first_seen str_eqb (stored_keys input)) out /\
  (forallb no_regex input = true ->
   Forall2 (fun K o => source_shape o (source_languages (filter (keyed K) input)))
           (first_seen str_eqb (map effective_key (filter eligible input))) out).
Proof.
  intros _ Hl H.
  destruct (conversion_records _ _ H) as (evs & st & Hrun & -> & Hev & Hk & Hown).
  assert (T : forall K m, In (K, m) st ->
                          source_shape (flatten K m)
                            (source_languages (contributors K (combine input evs)))).
  { intros K m Hin.
    destruct (run_tracked _ _ _ _ _ Hrun Hl (Hown _ _ Hin)) as [ND T].
    apply tracked_source_shape, tracked_flatten; assumption. }
  split.
  - rewrite <- Hk, <- Hev. apply Forall2_records. exact T.
  - intros Hr. rewrite <- (plain_keys _ _ _ Hrun Hr). apply Forall2_records.
    intros K m Hin. rewrite <- (contributors_plain _ _ _ K Hrun Hr).
    exact (T K m Hin).
Qed.

(** X18.  On an input none of whose patterns names a member of
    [Object.prototype] and whose languages are language codes, a term of
    the array returned has the field [multipleSourceLanguages], with the
    value [true] and next to the array [sourceLanguages], when two of the
    terms that contributed to its record differ in source language, and
    has no such field when they all agree.  In an input without
    regular-expression terms the contributors of a record are the eligible
    terms of its key.  Merging a further term into a record that has the
    flag keeps it. *)
Theorem multiple_source_languages_flag (input : list SourceTerm) (out : list object) :
  forallb own_pattern input = true ->
  forallb language_code input = true ->
  VnrToYagtFormat input = Return out ->
  let flagged (S : list (option jsstring)) (o : object) :=
    (distinct_sources S ->
     own o (js "multipleSourceLanguages") = Some (VBool true) /\
     exists L, own o (js "sourceLanguages") = Some (VArray L)) /\
    (~ distinct_sources S -> own o (js "multipleSourceLanguages") = None) in
  Forall2 (fun K o =>
             flagged (source_languages
                        (contributors K (combine input (trace input)))) o)
          (first_seen str_eqb (stored_keys input)) out /\
  (forallb no_regex input = true ->
   Forall2 (fun K o => flagged (source_languages (filter (keyed K) input)) o)
           (first_seen str_eqb (map effective_key (filter eligible input))) out) /\
  (forall m t m',
      own m (js "multipleSourceLanguages") = Some (VBool true) ->
      language_code t = true -> merge m t = Return m' ->
      own m' (js "multipleSourceLanguages") = Some (VBool true)).
Proof.
  intros _ Hl H flagged.
  destruct (conversion_records _ _ H) as (evs & st & Hrun & -> & Hev & Hk & Hown).
  assert (T : forall K m, In (K, m) st ->
                          flagged (source_languages
                                     (contributors K (combine input evs)))
                                  (flatten K m)).
  { intros K m Hin.
    destruct (run_tracked _ _ _ _ _ Hrun Hl (Hown _ _ Hin)) as [ND T].
    pose proof (tracked_flatten K m _ ND T) as TF. split.
    - intros Hd. destruct TF as [H1 _ _ | (_ & L & HL & _) H3 _].
      + destruct (one_source_not_distinct _ _ H1 Hd).
      + split; [exact H3 | exists (map of_field L); exact HL].
    - intros Hn. destruct TF as [_ H3 _ | _ _ Hd]; [exact H3 | destruct (Hn Hd)]. }
  split; [|split].
  - rewrite <- Hk, <- Hev. apply Forall2_records. exact T.
  - intros Hr. rewrite <- (plain_keys _ _ _ Hrun Hr). apply Forall2_records.
    intros K m Hin. rewrite <- (contributors_plain _ _ _ K Hrun Hr).
    exact (T K m Hin).
  - exact merge_keeps_flag.
Qed.


(** X11.  In an input without regular expressions and none of whose
    patterns names a member of [Object.prototype], the last write wins:
    the array returned has one term for each key of an eligible term, in
    the order of first appearance, and for a language that is not a name
    the record or the output term uses itself, the term of a key holds
    the text of the last eligible term of that key with that language,
    and has no such field when no term of the key has that language. *)
Theorem last_write_wins_without_regex (input : list SourceTerm) (out : list object) :
  forallb own_pattern input = true ->
  forallb no_regex input = true ->
  VnrToYagtFormat input = Return out ->
  Forall2 (fun K o => forall L, language_field L = true ->
                                own o L = last_text K L input)
          (first_seen str_eqb (map effective_key (filter eligible input))) out.
Proof.
  intros _ Hr H.
  destruct (conversion_records _ _ H) as (evs & st & Hrun & -> & Hev & Hk & Hown).
  rewrite <- (plain_keys _ _ _ Hrun Hr). apply Forall2_records.
  intros K m Hin L HL. unfold language_field in HL.
  rewrite !andb_true_iff, !negb_true_iff in HL.
  destruct HL as (((H1 & H2) & H3) & H4).
  exact (record_last_write _ _ _ _ _ L Hrun Hr (Hown _ _ Hin) H1 H2 H3 H4).
Qed.

(** C10.  Two regular-expression terms of the pattern [foo], the first
    with the source language [ja], the second with [zh]: both are
    eligible terms of the key [/foo/], yet the array returned has for
    that key a term with the single field [sourceLanguage] of the second
    term, and with neither [multipleSourceLanguages] nor
    [sourceLanguages].  Line 159 looks for [foo], finds nothing, and the
    record of the second term replaces that of the first (line 191). *)
Theorem regex_terms_of_two_sources_unflagged :
  forallb (keyed (js "/foo/")) regex_two_sources = true /\
  source_languages regex_two_sources = [Some (js "ja"); Some (js "zh")] /\
  exists o,
    VnrToYagtFormat regex_two_sources = Return [o] /\
    o = [field "pattern" "/foo/"; field "sourceLanguage" "zh"; field "en" "b"] /\
    own o (js "multipleSourceLanguages") = None /\
    own o (js "sourceLanguages") = None.
Proof.
  split; [vm_compute; reflexivity|]. split; [reflexivity|].
  eexists. split; [vm_compute; reflexivity|].
  split; [reflexivity|]. split; vm_compute; reflexivity.
Qed.

(** C5.  An eligible term whose pattern is [__proto__]: its key is
    [__proto__], no record is stored yet, and still the test of line 159
    succeeds, on the object [Object.prototype] that the empty mapping
    inherits under that name.  The loop takes the branch of lines 160-181
    for this first term and stores no record for it: what that branch
    writes are properties of [Object.prototype], which line 198 then
    finds as names of the mapping. *)
Theorem inherited_name_taken_for_record :
  eligible inherited_name_term = true /\
  effective_key inherited_name_term = js "__proto__" /\
  own [] (js "__proto__") = @None object /\
  lookup [] (property_key (pattern inherited_name_term)) = Inherited /\
  step [] inherited_name_term = Builtin (js "__proto__").
Proof. repeat split; vm_compute; reflexivity. Qed.

(* ================================================================== *)
(** * The theorems of this part at sample inputs *)


Lemma last_write_wins_without_regex_witness :
  forallb own_pattern two_sources = true /\
  forallb no_regex two_sources = true /\
  VnrToYagtFormat two_sources = Return two_sources_output /\
  Forall2 (fun K o => forall L, language_field L = true ->
                                own o L = last_text K L two_sources)
          (first_seen str_eqb (map effective_key (filter eligible two_sources)))
          two_sources_output.
Proof.
  assert (E : VnrToYagtFormat two_sources = Return two_sources_output)
    by (vm_compute; reflexivity).
  split; [reflexivity|]. split; [reflexivity|]. split; [exact E|].
  exact (last_write_wins_without_regex two_sources two_sources_output
                                       eq_refl eq_refl E).
Defined.


Lemma source_language_fields_witness :
  forallb own_pattern two_sources = true /\
  forallb language_code two_sources = true /\
  VnrToYagtFormat two_sources = Return two_sources_output /\
  Forall2 (fun K o =>
             source_shape o (source_languages
                               (contributors K (combine two_sources
                                                        (trace two_sources)))))
          (first_seen str_eqb (stored_keys two_sources)) two_sources_output /\
  Forall2 (fun K o => source_shape o (source_languages
                                        (filter (keyed K) two_sources)))
          (first_seen str_eqb (map effective_key (filter eligible two_sources)))
          two_sources_output.
Proof.
  assert (E : VnrToYagtFormat two_sources = Return two_sources_output)
    by (vm_compute; reflexivity).
  destruct (source_language_fields two_sources two_sources_output
                                   eq_refl eq_refl E) as (H1 & H2).
  split; [reflexivity|]. split; [reflexivity|]. split; [exact E|].
  split; [exact H1|]. apply H2. reflexivity.
Defined.

Lemma multiple_source_languages_flag_witness :
  forallb own_pattern two_sources = true /\
  forallb language_code two_sources = true /\
  VnrToYagtFormat two_sources = Return two_sources_output /\
  Forall2 (fun K o =>
             let S := source_languages (filter (keyed K) two_sources) in
             (distinct_sources S ->
              own o (js "multipleSourceLanguages") = Some (VBool true) /\
              exists L, own o (js "sourceLanguages") = Some (VArray L)) /\
             (~ distinct_sources S ->
              own o (js "multipleSourceLanguages") = None))
          (first_seen str_eqb (map effective_key (filter eligible two_sources)))
          two_sources_output.
Proof.
  assert (E : VnrToYagtFormat two_sources = Return two_sources_output)
    by (vm_compute; reflexivity).
  destruct (multiple_source_languages_flag two_sources two_sources_output
                                           eq_refl eq_refl E) as (_ & H2 & _).
  split; [reflexivity|]. split; [reflexivity|]. split; [exact E|].
  apply H2. reflexivity.
Defined.
